(** * Saved-views store of svelte-table-views

    A shallow embedding of [src/lib/stores/saved-views.ts] (with the types of
    [src/lib/types/index.ts]) and the properties of its operations.

    Modelling conventions.
    - JavaScript numbers that hold timestamps and counters are the
      integer-valued doubles, as integers [Z].  Comparisons of doubles are
      exact, and so are the sign of a difference (the comparator of
      [recentViews]) and a time value less a week.  Where a sum or a
      difference can be rounded and is used as a number, [usageCount + 1]
      in [load] and the age in [formatDate], it is the double nearest to
      the exact one ([Number_plus_one], [Number_minus]): exact up to 2^53
      in magnitude, rounded to even above.  The one fractional computation,
      [percentFull], is carried out over the rationals [Q].
    - The store's three writables ([savedViews], [activeViewId],
      [activeViewModified]) are fields of one [World]; the operations of
      [viewActions] are actions of a state-and-rejection monad over it.
    - [Date.now()] and [crypto.randomUUID()] are oracles of the environment:
      the [k]-th call made by the store's operations returns [Date_now k],
      resp. [randomUUID k]; the world counts the calls made so far.  Every
      call the source makes is one read of the oracle, so two reads in one
      operation may differ.
    - [browser] is the module constant [typeof window !== 'undefined'].
    - The localStorage subscription and the console logging do not flow back
      into the three writables and are left out. *)

From Stdlib Require Import List String ZArith QArith Qround Lia Bool.
From Stdlib Require Import Sorted Permutation.
From Stdlib Require Import Ascii DecimalString DecimalNat DecimalZ.
Import ListNotations.

Local Open Scope string_scope.
Local Open Scope Z_scope.
Local Open Scope list_scope.

(** ** Data model: [src/lib/types/index.ts] *)

(** [value: any] of a filter condition: the JSON scalars a filter carries. *)
Inductive JsValue : Type :=
| JsNull
| JsBool (b : bool)
| JsNumber (n : Z)
| JsString (s : string).

Record FilterCondition : Type := {
  columnId : string;
  operator : string;
  value : JsValue
}.

Inductive SortDirection : Type := asc | desc.

Record SortConfig : Type := {
  sort_columnId : string;
  direction : SortDirection
}.

Record TableConfig : Type := {
  filters : list FilterCondition;
  sort : option SortConfig;
  columns : list string;
  columnOrder : list string;
  columnWidths : list (string * Z);
  pageSize : Z;
  grouping : option (list string)
}.

Record SavedView : Type := {
  id : string;
  name : string;
  description : option string;
  config : TableConfig;
  originalQuery : option string;
  createdAt : Z;
  updatedAt : Z;
  usageCount : Z;
  lastUsed : Z
}.

(** [Omit<SavedView, 'id' | 'createdAt' | 'updatedAt' | 'usageCount' | 'lastUsed'>] *)
Record SavedViewInput : Type := {
  in_name : string;
  in_description : option string;
  in_config : TableConfig;
  in_originalQuery : option string
}.

(** [Partial<SavedView>]: every key may be absent ([None]) or present. *)
Record PartialSavedView : Type := {
  p_id : option string;
  p_name : option string;
  p_description : option (option string);
  p_config : option TableConfig;
  p_originalQuery : option (option string);
  p_createdAt : option Z;
  p_updatedAt : option Z;
  p_usageCount : option Z;
  p_lastUsed : option Z
}.

Definition no_updates : PartialSavedView :=
  {| p_id := None; p_name := None; p_description := None; p_config := None;
     p_originalQuery := None; p_createdAt := None; p_updatedAt := None;
     p_usageCount := None; p_lastUsed := None |}.

(** The object literal [{ name: newName }]. *)
Definition name_only (newName : string) : PartialSavedView :=
  {| p_id := None; p_name := Some newName; p_description := None;
     p_config := None; p_originalQuery := None; p_createdAt := None;
     p_updatedAt := None; p_usageCount := None; p_lastUsed := None |}.

(** ** Numbers *)

(** [x + 1] on an integer-valued double [x].  Every integer from -2^53 to
    2^53 is a double, so the sum is exact for [x] from -2^53 up to 2^53 - 1.
    From 2^53 to 2^54 in magnitude the doubles are the even integers: the
    sum lies half way between [x] and [x + 2] and goes to the one whose
    significand is even.  Beyond, the doubles are at least 4 apart and the
    sum goes back to [x]. *)
Definition Number_plus_one (x : Z) : Z :=
  if (- 2 ^ 53 <=? x) && (x <? 2 ^ 53) then x + 1
  else if (- 2 ^ 54 <=? x) && (x <? 2 ^ 54) then
    if Z.even (x / 2) then x else x + 2
  else x.

(** An integer that a double holds together with its successor. *)
Definition safe_to_increment (x : Z) : Prop := - 2 ^ 53 <= x < 2 ^ 53.

(** The double nearest to an integer [z] of magnitude below 2^54, halves to
    the even significand: [z] itself up to 2^53, and above that the nearest
    even integer, the one divisible by 4 when [z] is odd. *)
Definition nearest_double (z : Z) : Z :=
  if Z.abs z <=? 2 ^ 53 then z
  else if Z.even z then z
  else if (z + 1) mod 4 =? 0 then z + 1 else z - 1.

(** [a - b] on two integer-valued doubles below 2^53 in magnitude. *)
Definition Number_minus (a b : Z) : Z := nearest_double (a - b).

(** The time value of [new Date(t)] for an integer [t]: [t] itself within
    8.64e15 milliseconds of the epoch, and none (the Invalid Date, whose
    [getTime()] is NaN) beyond. *)
Definition TimeClip (t : Z) : option Z :=
  if Z.abs t <=? 8640000000000000 then Some t else None.

(** ** Object spreads *)

Definition key_or {A : Type} (present : option A) (old : A) : A :=
  match present with
  | Some x => x
  | None => old
  end.

(** [{ ...v, ...updates }]: a key present in [updates] replaces that of [v]. *)
Definition spread (v : SavedView) (updates : PartialSavedView) : SavedView :=
  {| id := key_or (p_id updates) (id v);
     name := key_or (p_name updates) (name v);
     description := key_or (p_description updates) (description v);
     config := key_or (p_config updates) (config v);
     originalQuery := key_or (p_originalQuery updates) (originalQuery v);
     createdAt := key_or (p_createdAt updates) (createdAt v);
     updatedAt := key_or (p_updatedAt updates) (updatedAt v);
     usageCount := key_or (p_usageCount updates) (usageCount v);
     lastUsed := key_or (p_lastUsed updates) (lastUsed v) |}.

Definition with_updatedAt (t : Z) (v : SavedView) : SavedView :=
  {| id := id v; name := name v; description := description v;
     config := config v; originalQuery := originalQuery v;
     createdAt := createdAt v; updatedAt := t;
     usageCount := usageCount v; lastUsed := lastUsed v |}.

Definition with_name (n : string) (v : SavedView) : SavedView :=
  {| id := id v; name := n; description := description v;
     config := config v; originalQuery := originalQuery v;
     createdAt := createdAt v; updatedAt := updatedAt v;
     usageCount := usageCount v; lastUsed := lastUsed v |}.

(** [{ ...v, usageCount: v.usageCount + 1, lastUsed: t }] *)
Definition used_at (t : Z) (v : SavedView) : SavedView :=
  {| id := id v; name := name v; description := description v;
     config := config v; originalQuery := originalQuery v;
     createdAt := createdAt v; updatedAt := updatedAt v;
     usageCount := Number_plus_one (usageCount v); lastUsed := t |}.

(** [{ ...v, ...updates, updatedAt: t }] *)
Definition updated_at (updates : PartialSavedView) (t : Z) (v : SavedView)
  : SavedView :=
  with_updatedAt t (spread v updates).

(** [{ ...v, name: newName, updatedAt: t }] *)
Definition renamed_at (newName : string) (t : Z) (v : SavedView) : SavedView :=
  with_updatedAt t (with_name newName v).

(** ** Environment and world *)

Record Env : Type := {
  browser : bool;
  Date_now : nat -> Z;
  randomUUID : nat -> string
}.

Record World : Type := {
  savedViews : list SavedView;
  activeViewId : option string;
  activeViewModified : bool;
  clock_reads : nat;
  uuid_draws : nat
}.

Definition set_savedViews (vs : list SavedView) (w : World) : World :=
  {| savedViews := vs; activeViewId := activeViewId w;
     activeViewModified := activeViewModified w;
     clock_reads := clock_reads w; uuid_draws := uuid_draws w |}.

Definition set_activeViewId (a : option string) (w : World) : World :=
  {| savedViews := savedViews w; activeViewId := a;
     activeViewModified := activeViewModified w;
     clock_reads := clock_reads w; uuid_draws := uuid_draws w |}.

Definition set_activeViewModified (m : bool) (w : World) : World :=
  {| savedViews := savedViews w; activeViewId := activeViewId w;
     activeViewModified := m;
     clock_reads := clock_reads w; uuid_draws := uuid_draws w |}.

Definition set_clock_reads (n : nat) (w : World) : World :=
  {| savedViews := savedViews w; activeViewId := activeViewId w;
     activeViewModified := activeViewModified w;
     clock_reads := n; uuid_draws := uuid_draws w |}.

Definition set_uuid_draws (n : nat) (w : World) : World :=
  {| savedViews := savedViews w; activeViewId := activeViewId w;
     activeViewModified := activeViewModified w;
     clock_reads := clock_reads w; uuid_draws := n |}.

(** ** The action monad: state passing with promise rejection *)

Inductive Outcome (A : Type) : Type :=
| Resolved (a : A)
| Rejected (msg : string).

Arguments Resolved {A} a.
Arguments Rejected {A} msg.

Definition Action (A : Type) : Type := World -> Outcome A * World.

Definition ret {A : Type} (a : A) : Action A := fun w => (Resolved a, w).

Definition throw {A : Type} (msg : string) : Action A :=
  fun w => (Rejected msg, w).

Definition bind {A B : Type} (m : Action A) (k : A -> Action B) : Action B :=
  fun w =>
    match m w with
    | (Resolved a, w') => k a w'
    | (Rejected msg, w') => (Rejected msg, w')
    end.

Declare Scope action_scope.
Delimit Scope action_scope with action.
Notation "x <- m ;; k" := (bind m (fun x => k))
  (at level 61, m at next level, right associativity) : action_scope.
Notation "m ;; k" := (bind m (fun _ => k))
  (at level 61, right associativity) : action_scope.
Local Open Scope action_scope.

Definition result {A : Type} (r : Outcome A * World) : Outcome A := fst r.
Definition world_after {A : Type} (r : Outcome A * World) : World := snd r.

(** [get(store)] and [store.set(value)] of the three writables. *)
Definition get_savedViews : Action (list SavedView) :=
  fun w => (Resolved (savedViews w), w).
Definition get_activeViewId : Action (option string) :=
  fun w => (Resolved (activeViewId w), w).
Definition activeViewId_set (a : option string) : Action unit :=
  fun w => (Resolved tt, set_activeViewId a w).
Definition activeViewModified_set (m : bool) : Action unit :=
  fun w => (Resolved tt, set_activeViewModified m w).

(** [savedViews.update(fn)]: [fn] runs on the current value and its result is
    stored. *)
Definition savedViews_update
  (fn : list SavedView -> Action (list SavedView)) : Action unit :=
  views <- get_savedViews ;;
  views' <- fn views ;;
  fun w => (Resolved tt, set_savedViews views' w).

(** [Array.prototype.map] with a callback that may read the oracles: the
    callback runs on the elements from left to right. *)
Fixpoint Array_map {A B : Type} (f : A -> Action B) (l : list A)
  : Action (list B) :=
  match l with
  | [] => ret []
  | x :: l' =>
      y <- f x ;;
      ys <- Array_map f l' ;;
      ret (y :: ys)
  end.

(** [Array.prototype.find] is [List.find]; [filter] and [some] are
    [List.filter] and [List.existsb]. *)

(** ** Pure helpers of the store *)

(** [Array.prototype.sort(compareFn)]: the stable sort (ECMAScript 2019), as
    insertion from the right; [x] goes before the first element it does not
    have to follow. *)
Fixpoint sort_insert {A : Type} (compareFn : A -> A -> Z) (x : A) (l : list A)
  : list A :=
  match l with
  | [] => [x]
  | y :: l' =>
      if compareFn x y <=? 0 then x :: y :: l'
      else y :: sort_insert compareFn x l'
  end.

Definition Array_sort {A : Type} (compareFn : A -> A -> Z) (l : list A)
  : list A :=
  fold_right (sort_insert compareFn) [] l.

(** [Array.prototype.slice(start, end)] for indices within [0, 2^53). *)
Definition Array_slice {A : Type} (start stop : nat) (l : list A) : list A :=
  firstn (stop - start) (skipn start l).

(** The callback of the derived store [recentViews]; [now] is the value its
    call of [Date.now()] returns. *)
Definition recentViews (now : Z) (views : list SavedView) : list SavedView :=
  let sevenDaysAgo := now - 7 * 24 * 60 * 60 * 1000 in
  Array_slice 0 5
    (Array_sort (fun a b => lastUsed b - lastUsed a)
       (filter (fun v => lastUsed v >=? sevenDaysAgo) views)).

(** The callback of the derived store [activeView]; the empty string is
    falsy. *)
Definition activeView (views : list SavedView) (active : option string)
  : option SavedView :=
  match active with
  | Some a =>
      if String.eqb a "" then None
      else find (fun v => String.eqb (id v) a) views
  | None => None
  end.

(** [Math.round]: the nearest integer, halves towards plus infinity. *)
Definition Math_round (x : Q) : Z := Qfloor (x + (1 # 2)).

Record StorageStats : Type := {
  count : Z;
  limit : Z;
  percentFull : Z
}.

(** Number of elements of [views] with [v.id === target]. *)
Definition matches (target : string) (views : list SavedView) : nat :=
  List.length (filter (fun v => String.eqb (id v) target) views).

(** The id [target] is the id of some view of the collection. *)
Definition present (target : string) (views : list SavedView) : Prop :=
  exists v, In v views /\ id v = target.

(** [v'] is [v] after one use at time [t]: the count of uses is the double
    sum of the old count and 1, which is one more whenever the old count is
    safe to increment; last used at [t]; nothing else touched. *)
Definition used_once (t : Z) (v v' : SavedView) : Prop :=
  usageCount v' = Number_plus_one (usageCount v) /\
  (safe_to_increment (usageCount v) -> usageCount v' = usageCount v + 1) /\
  lastUsed v' = t /\
  id v' = id v /\ name v' = name v /\ description v' = description v /\
  config v' = config v /\ originalQuery v' = originalQuery v /\
  createdAt v' = createdAt v /\ updatedAt v' = updatedAt v.

(** A collection after a pass that rewrites the views with id [target] by a
    relation [change], each at a clock read numbered within [lo, hi), and
    keeps the other views as they are. *)
Definition rewritten (now : nat -> Z) (target : string)
  (change : Z -> SavedView -> SavedView -> Prop) (lo hi : nat)
  (before after : list SavedView) : Prop :=
  Forall2
    (fun v v' =>
       if String.eqb (id v) target
       then exists k, (lo <= k < hi)%nat /\ change (now k) v v'
       else v' = v)
    before after.

(** One call of [viewActions]. *)
Inductive Command : Type :=
| CSave (input : SavedViewInput)
| CLoad (target : string)
| CUpdate (target : string) (updates : PartialSavedView)
| CDelete (target : string)
| CRename (target : string) (newName : string)
| CMarkModified
| CClearActive.

(** [v'] is [v] merged with [updates] at time [t]: a key the partial carries
    replaces the stored one, whichever key it is, and [updatedAt] is [t]. *)
Definition merged (updates : PartialSavedView) (t : Z) (v v' : SavedView)
  : Prop :=
  id v' = key_or (p_id updates) (id v) /\
  name v' = key_or (p_name updates) (name v) /\
  description v' = key_or (p_description updates) (description v) /\
  config v' = key_or (p_config updates) (config v) /\
  originalQuery v' = key_or (p_originalQuery updates) (originalQuery v) /\
  createdAt v' = key_or (p_createdAt updates) (createdAt v) /\
  usageCount v' = key_or (p_usageCount updates) (usageCount v) /\
  lastUsed v' = key_or (p_lastUsed updates) (lastUsed v) /\
  updatedAt v' = t.

(** ** The life of a view *)

(** Calls whose [update] partial does not carry a given key. *)
Definition keeps_usageCount (c : Command) : Prop :=
  match c with
  | CUpdate _ updates => p_usageCount updates = None
  | _ => True
  end.

Definition keeps_lastUsed (c : Command) : Prop :=
  match c with
  | CUpdate _ updates => p_lastUsed updates = None
  | _ => True
  end.

Definition keeps_createdAt (c : Command) : Prop :=
  match c with
  | CUpdate _ updates => p_createdAt updates = None
  | _ => True
  end.

(** The origin of a view of the collection: the position it had in the
    collection the session started from, or [None] for a view saved since.
    At the start every view is its own origin. *)
Definition initial_origins (views : list SavedView) : list (option nat) :=
  map Some (seq 0 (List.length views)).

(** The origins that remain when [views.filter(keep)] drops views. *)
Definition filter_origins (keep : SavedView -> bool)
  (origins : list (option nat)) (views : list SavedView)
  : list (option nat) :=
  map fst (filter (fun p => keep (snd p)) (combine origins views)).

(** Position by position: every view of [current] that has an origin in
    [start] is related by [R] to the view it was there. *)
Definition continues (R : SavedView -> SavedView -> Prop)
  (start : list SavedView) (origins : list (option nat))
  (current : list SavedView) : Prop :=
  Forall2
    (fun origin v' =>
       match origin with
       | Some i => exists v, nth_error start i = Some v /\ R v v'
       | None => True
       end)
    origins current.

(** ** The components that call the store

    [src/lib/components/ViewSelector.svelte], the save dialog
    ([SaveViewModal.svelte]) and the demonstration page.  The functions of
    the host that work on Unicode text or on the locale are taken as they
    come; the rest is computed. *)

Record Host : Type := {
  String_trim : string -> string;
  String_toLowerCase : string -> string;
  String_localeCompare : string -> string -> Z;
  Date_toLocaleDateString : Z -> string
}.

(** A template literal's rendering of a non-negative integer, resp. of an
    integer: decimal digits, with a leading minus sign when negative. *)
Definition js_string_of_nat (n : nat) : string :=
  NilEmpty.string_of_uint (Nat.to_uint n).

Definition js_string_of_Z (z : Z) : string :=
  NilEmpty.string_of_int (Z.to_int z).

(** The one-character string that holds a double quote. *)
Definition double_quote : string := String (ascii_of_nat 34) EmptyString.

(** A string in a condition: the empty string is falsy. *)
Definition truthy (s : string) : bool := negb (String.eqb s "").

(** A [string | null] in a condition. *)
Definition truthy_id (o : option string) : bool :=
  match o with
  | Some s => truthy s
  | None => false
  end.

(** [s.includes(sub)] *)
Fixpoint String_includes (sub s : string) : bool :=
  if String.prefix sub s then true
  else match s with
       | EmptyString => false
       | String _ s' => String_includes sub s'
       end.

(** What a component sends out: the events it dispatches and the alerts it
    raises. *)
Inductive Signal : Type :=
| viewSelected (view : SavedView)
| deleteView_event (target : string)
| save_event (new_id new_name : string)
| alert (msg : string).

(** [try { body } catch (err) { handler }] *)
Definition try_catch {A : Type} (body : Action A) (handler : string -> Action A)
  : Action A :=
  fun w =>
    match body w with
    | (Resolved a, w') => (Resolved a, w')
    | (Rejected msg, w') => handler msg w'
    end.

(** The state of a [ViewSelector]. *)
Record ViewSelector : Type := {
  selector_open : bool;
  searchQuery : string;
  renamingId : option string;
  renameValue : string;
  selectedIndex : Z
}.

Definition closeDropdown (ui : ViewSelector) : ViewSelector :=
  {| selector_open := false; searchQuery := ""; renamingId := None;
     renameValue := renameValue ui; selectedIndex := -1 |}.

Definition toggleDropdown (ui : ViewSelector) : ViewSelector :=
  if negb (selector_open ui) then
    {| selector_open := true; searchQuery := searchQuery ui;
       renamingId := renamingId ui; renameValue := renameValue ui;
       selectedIndex := selectedIndex ui |}
  else closeDropdown ui.

Definition set_selectedIndex (i : Z) (ui : ViewSelector) : ViewSelector :=
  {| selector_open := selector_open ui; searchQuery := searchQuery ui;
     renamingId := renamingId ui; renameValue := renameValue ui;
     selectedIndex := i |}.

Definition startRename (view : SavedView) (ui : ViewSelector) : ViewSelector :=
  {| selector_open := selector_open ui; searchQuery := searchQuery ui;
     renamingId := Some (id view); renameValue := name view;
     selectedIndex := selectedIndex ui |}.


(** The candidate names of [duplicateView]: the first one, and the one built
    from the counter. *)
Definition first_copy_name (base : string) : string :=
  String.append base " (Copy)".

Definition numbered_copy_name (base : string) (counter : nat) : string :=
  String.append base
    (String.append " (Copy " (String.append (js_string_of_nat counter) ")")).

(** [nameExists(n)] as a test on the collection. *)
Definition name_taken (views : list SavedView) (n : string) : bool :=
  existsb (fun v => String.eqb (name v) n && negb false) views.

(** The names the loop of [duplicateView] tries, in order: the first one,
    then those numbered 2, 3, ... *)
Definition copy_candidate (base : string) (j : nat) : string :=
  match j with
  | O => first_copy_name base
  | S _ => numbered_copy_name base (S j)
  end.

(** One of the two keys that move the highlight. *)
Definition arrow_key (key : string) : Prop :=
  key = "ArrowDown" \/ key = "ArrowUp".

(** The state of a [SaveViewModal]: its props and its fields. *)
Record SaveViewModal : Type := {
  modal_open : bool;
  modal_config : TableConfig;
  modal_originalQuery : option string;
  modal_name : string;
  modal_description : string;
  saving : bool;
  error : string
}.

Definition with_error (msg : string) (m : SaveViewModal) : SaveViewModal :=
  {| modal_open := modal_open m; modal_config := modal_config m;
     modal_originalQuery := modal_originalQuery m;
     modal_name := modal_name m; modal_description := modal_description m;
     saving := saving m; error := msg |}.

(** The dialog after a successful save. *)
Definition closed_after_save (m : SaveViewModal) : SaveViewModal :=
  {| modal_open := false; modal_config := modal_config m;
     modal_originalQuery := modal_originalQuery m;
     modal_name := modal_name m; modal_description := modal_description m;
     saving := false; error := "" |}.

(** The table state of the demonstration page. *)
Record DemoTable : Type := {
  demo_filters : list FilterCondition;
  demo_sort : option SortConfig;
  demo_columns : list string;
  demo_columnOrder : list string
}.

Definition availableColumns : list string :=
  ["id"; "type"; "date"; "organization"; "description"; "fine_amount";
   "status"].

(** [availableColumns.includes(col)] *)
Definition includes_column (col : string) (cols : list string) : bool :=
  existsb (String.eqb col) cols.

Definition captureCurrentConfig (t : DemoTable) : TableConfig :=
  {| filters := demo_filters t; sort := demo_sort t;
     columns := demo_columns t; columnOrder := demo_columnOrder t;
     columnWidths := []; pageSize := 25; grouping := None |}.

(** The table state [handleViewSelected] leaves. *)
Definition handleViewSelected (view : SavedView) (t : DemoTable) : DemoTable :=
  let validColumns :=
    filter (fun col => includes_column col availableColumns)
      (columns (config view)) in
  let validColumnOrder :=
    filter (fun col => includes_column col availableColumns)
      (columnOrder (config view)) in
  {| demo_filters := filters (config view);
     demo_sort := sort (config view);
     demo_columns :=
       if (0 <? List.length validColumns)%nat then validColumns
       else availableColumns;
     demo_columnOrder :=
       if (0 <? List.length validColumnOrder)%nat then validColumnOrder
       else availableColumns |}.

Definition with_sort (s : option SortConfig) (t : DemoTable) : DemoTable :=
  {| demo_filters := demo_filters t; demo_sort := s;
     demo_columns := demo_columns t; demo_columnOrder := demo_columnOrder t |}.

Definition with_filters (f : list FilterCondition) (t : DemoTable)
  : DemoTable :=
  {| demo_filters := f; demo_sort := demo_sort t;
     demo_columns := demo_columns t; demo_columnOrder := demo_columnOrder t |}.

(** The sort [toggleSort(columnId)] moves to. *)
Definition next_sort (target : string) (s : option SortConfig)
  : option SortConfig :=
  match s with
  | Some current =>
      if String.eqb (sort_columnId current) target then
        match direction current with
        | asc => Some {| sort_columnId := target; direction := desc |}
        | desc => None
        end
      else Some {| sort_columnId := target; direction := asc |}
  | None => Some {| sort_columnId := target; direction := asc |}
  end.

(** [formatDate(timestamp)], with [now] the time value [new Date()] reads.
    - Of an Invalid Date [diffDays] is NaN, every test on it is false, and
      [toLocaleDateString] gives ['Invalid Date'].
    - The difference of two time values is below 2^54 in magnitude and is
      rounded to a double by the subtraction.
    - The quotient by 86400000 is rounded in turn, which does not move its
      floor: a difference [d] that is not a multiple of 86400000 leaves the
      exact quotient at least 1/86400000 (more than 2^-27) away from every
      integer when [|d| <= 2^53], and at least 2/86400000 (more than 2^-26)
      away when [d] is one of the even doubles above; the quotient is below
      2^27 in the first case and below 2^28 in the second, so that the
      rounding moves it by at most 2^-27 and 2^-26.  [Math.floor] of the
      quotient is the integer division below.
    - [Math.floor(diffDays / 7)] is taken of an integer from 7 to 29. *)
Definition formatDate (host : Host) (now timestamp : Z) : string :=
  match TimeClip timestamp with
  | None => "Invalid Date"
  | Some date =>
      let diffDays := Number_minus now date / (1000 * 60 * 60 * 24) in
      if diffDays =? 0 then "Today"
      else if diffDays =? 1 then "Yesterday"
      else if diffDays <? 7 then
        String.append (js_string_of_Z diffDays) " days ago"
      else if diffDays <? 30 then
        String.append (js_string_of_Z (diffDays / 7)) " weeks ago"
      else Date_toLocaleDateString host date
  end.

(** ** The active view across a session *)

(** The active id, when there is one, is the id of a view of the
    collection. *)
Definition active_resolves (w : World) : Prop :=
  forall a, activeViewId w = Some a -> present a (savedViews w).

(** A call that cannot change the id of a view. *)
Definition keeps_id (c : Command) : Prop :=
  match c with
  | CUpdate _ updates => p_id updates = None
  | _ => True
  end.

(** The views last used within the seven days before [now]. *)
Definition used_this_week (now : Z) (views : list SavedView)
  : list SavedView :=
  filter (fun v => lastUsed v >=? now - 7 * 24 * 60 * 60 * 1000) views.

(** ** Sample data *)

Definition plain_config : TableConfig :=
  {| filters := [ {| columnId := "status"; operator := "equals";
                     value := JsString "Active" |} ];
     sort := Some {| sort_columnId := "date"; direction := desc |};
     columns := ["id"; "status"]; columnOrder := ["id"; "status"];
     columnWidths := [("id", 80)]; pageSize := 25; grouping := None |}.

Definition view_alpha : SavedView :=
  {| id := "a"; name := "Alpha"; description := None;
     config := plain_config; originalQuery := None;
     createdAt := 10; updatedAt := 20; usageCount := 2; lastUsed := 30 |}.

Definition view_beta : SavedView :=
  {| id := "b"; name := "Beta"; description := Some "second";
     config := plain_config; originalQuery := None;
     createdAt := 15; updatedAt := 15; usageCount := 0; lastUsed := 15 |}.

Definition input_gamma : SavedViewInput :=
  {| in_name := "Alpha"; in_description := None;
     in_config := plain_config; in_originalQuery := Some "open cases" |}.

Fixpoint tally (k : nat) : string :=
  match k with
  | O => ""
  | S k' => String.append "i" (tally k')
  end.

(** A browser whose clock advances by one millisecond at every read. *)
Definition ticking_browser : Env :=
  {| browser := true;
     Date_now := fun k => 1000 + Z.of_nat k;
     randomUUID := fun k => String.append "uuid-" (tally k) |}.

(** A browser whose clock stands still. *)
Definition steady_browser : Env :=
  {| browser := true;
     Date_now := fun _ => 1000;
     randomUUID := fun k => String.append "uuid-" (tally k) |}.

(** A browser whose wall clock is set back between reads. *)
Definition rewinding_browser : Env :=
  {| browser := true;
     Date_now := fun k => 1000 - Z.of_nat k;
     randomUUID := fun k => String.append "uuid-" (tally k) |}.

Definition world_ab : World :=
  {| savedViews := [view_alpha; view_beta];
     activeViewId := Some "a"; activeViewModified := true;
     clock_reads := 0; uuid_draws := 0 |}.

Definition world_empty : World :=
  {| savedViews := []; activeViewId := None; activeViewModified := false;
     clock_reads := 0; uuid_draws := 0 |}.

(** The partial [{ config }] with a page size of 50. *)
Definition wide_pages : PartialSavedView :=
  {| p_id := None; p_name := None; p_description := None;
     p_config :=
       Some {| filters := filters plain_config; sort := sort plain_config;
               columns := columns plain_config;
               columnOrder := columnOrder plain_config;
               columnWidths := columnWidths plain_config;
               pageSize := 50; grouping := grouping plain_config |};
     p_originalQuery := None; p_createdAt := None; p_updatedAt := None;
     p_usageCount := None; p_lastUsed := None |}.

(** A view counted 2^53 times. *)
Definition view_worn : SavedView :=
  {| id := "w"; name := "Worn"; description := None;
     config := plain_config; originalQuery := None;
     createdAt := 10; updatedAt := 20;
     usageCount := 9007199254740992; lastUsed := 30 |}.

Definition world_worn : World :=
  {| savedViews := [view_worn];
     activeViewId := None; activeViewModified := false;
     clock_reads := 0; uuid_draws := 0 |}.

(** A view stamped by a clock that ran ahead of the present one. *)
Definition view_ahead : SavedView :=
  {| id := "f"; name := "Ahead"; description := None;
     config := plain_config; originalQuery := None;
     createdAt := 5000; updatedAt := 5000; usageCount := 0;
     lastUsed := 5000 |}.

Definition world_ahead : World :=
  {| savedViews := [view_ahead];
     activeViewId := None; activeViewModified := false;
     clock_reads := 0; uuid_draws := 0 |}.

(** A stored view whose [createdAt] is later than its [updatedAt]. *)
Definition view_unordered : SavedView :=
  {| id := "u"; name := "Unordered"; description := None;
     config := plain_config; originalQuery := None;
     createdAt := 30; updatedAt := 20; usageCount := 0; lastUsed := 30 |}.

Definition world_unordered : World :=
  {| savedViews := [view_unordered];
     activeViewId := None; activeViewModified := false;
     clock_reads := 0; uuid_draws := 0 |}.

(** A browser whose generator returns the same identifier again. *)
Definition repeating_browser : Env :=
  {| browser := true;
     Date_now := fun k => 1000 + Z.of_nat k;
     randomUUID := fun _ => "uuid-" |}.

(** The partial [{ id: 'uuid-' }]: the caller's choice of an identifier the
    generator has yet to return. *)
Definition claim_next_id : PartialSavedView :=
  {| p_id := Some "uuid-"; p_name := None; p_description := None;
     p_config := None; p_originalQuery := None; p_createdAt := None;
     p_updatedAt := None; p_usageCount := None; p_lastUsed := None |}.

(** Fifty views, all of them named Alpha. *)
Definition world_full : World :=
  {| savedViews := repeat view_alpha 50;
     activeViewId := None; activeViewModified := false;
     clock_reads := 0; uuid_draws := 0 |}.

(** The partial [{ id: 'z', createdAt: 5000 }]. *)
Definition retag : PartialSavedView :=
  {| p_id := Some "z"; p_name := None; p_description := None;
     p_config := None; p_originalQuery := None; p_createdAt := Some 5000;
     p_updatedAt := None; p_usageCount := None; p_lastUsed := None |}.

(** The partial [{ usageCount: 0, lastUsed: 0 }]. *)
Definition reset_stats : PartialSavedView :=
  {| p_id := None; p_name := None; p_description := None;
     p_config := None; p_originalQuery := None; p_createdAt := None;
     p_updatedAt := None; p_usageCount := Some 0; p_lastUsed := Some 0 |}.

(** The partial [{ config, description: 'tidy', updatedAt: 1 }]. *)
Definition new_layout : PartialSavedView :=
  {| p_id := None; p_name := None; p_description := Some (Some "tidy");
     p_config := Some plain_config; p_originalQuery := None;
     p_createdAt := None; p_updatedAt := Some 1; p_usageCount := None;
     p_lastUsed := None |}.

(** The partial [{ usageCount: 2 ** 53 }]. *)
Definition wear_out : PartialSavedView :=
  {| p_id := None; p_name := None; p_description := None;
     p_config := None; p_originalQuery := None; p_createdAt := None;
     p_updatedAt := None; p_usageCount := Some 9007199254740992;
     p_lastUsed := None |}.

(** A view saved from a page with other columns: one of its three columns
    is a column of the demonstration page. *)
Definition view_foreign : SavedView :=
  {| id := "x"; name := "Foreign"; description := None;
     config :=
       {| filters := []; sort := None;
          columns := ["region"; "status"; "owner"];
          columnOrder := ["owner"; "region"];
          columnWidths := []; pageSize := 10; grouping := None |};
     originalQuery := None;
     createdAt := 10; updatedAt := 10; usageCount := 0; lastUsed := 10 |}.

(** A session on the two sample views. *)
Definition session_sample : list Command :=
  [CLoad "a"; CSave input_gamma; CUpdate "a" new_layout; CDelete "b";
   CRename "a" "Omega"].

(** A host for text that is plain, trimmed and lower case already; it
    compares names by their length. *)
Definition sample_host : Host :=
  {| String_trim := fun s => s;
     String_toLowerCase := fun s => s;
     String_localeCompare :=
       fun a b => Z.of_nat (String.length a) - Z.of_nat (String.length b);
     Date_toLocaleDateString := fun _ => "01 Jan 2024" |}.

(** An open selector with nothing typed and nothing highlighted. *)
Definition selector_opened : ViewSelector :=
  {| selector_open := true; searchQuery := ""; renamingId := None;
     renameValue := ""; selectedIndex := -1 |}.

(** The save dialog with the name Gamma typed in. *)
Definition modal_gamma : SaveViewModal :=
  {| modal_open := true; modal_config := plain_config;
     modal_originalQuery := None; modal_name := "Gamma";
     modal_description := ""; saving := false; error := "" |}.

(** The demonstration table with a filter, no sort and two columns. *)
Definition table_status : DemoTable :=
  {| demo_filters := filters plain_config; demo_sort := None;
     demo_columns := ["id"; "status"]; demo_columnOrder := ["status"; "id"] |}.

Definition table_blank : DemoTable :=
  {| demo_filters := []; demo_sort := None;
     demo_columns := availableColumns; demo_columnOrder := availableColumns |}.

Section Store.

Variable env : Env.

Definition Date_now_call : Action Z :=
  fun w => (Resolved (Date_now env (clock_reads w)),
            set_clock_reads (S (clock_reads w)) w).

Definition randomUUID_call : Action string :=
  fun w => (Resolved (randomUUID env (uuid_draws w)),
            set_uuid_draws (S (uuid_draws w)) w).

(** [if (!browser) throw new Error(msg)] *)
Definition require_browser (msg : string) : Action unit :=
  if browser env then ret tt else throw msg.

(** *** [viewActions.save] *)
Definition save (input : SavedViewInput) : Action SavedView :=
  require_browser "Cannot save views on server" ;;
  new_id <- randomUUID_call ;;
  created <- Date_now_call ;;
  updated <- Date_now_call ;;
  used <- Date_now_call ;;
  let newView :=
    {| id := new_id; name := in_name input;
       description := in_description input; config := in_config input;
       originalQuery := in_originalQuery input;
       createdAt := created; updatedAt := updated;
       usageCount := 0; lastUsed := used |} in
  savedViews_update (fun views => ret (views ++ [newView])) ;;
  ret newView.

(** The shape shared by [load], [update] and [rename]:
    [views.map((v) => v.id === id ? { ...stamped with Date.now() } : v)]. *)
Definition map_matching (target : string) (stamp : Z -> SavedView -> SavedView)
  (views : list SavedView) : Action (list SavedView) :=
  Array_map
    (fun v => if String.eqb (id v) target
              then (t <- Date_now_call ;; ret (stamp t v))
              else ret v)
    views.

Definition find_view (target : string) (views : list SavedView)
  : option SavedView :=
  find (fun v => String.eqb (id v) target) views.

(** *** [viewActions.load] *)
Definition load (target : string) : Action (option SavedView) :=
  require_browser "Cannot load views on server" ;;
  views <- get_savedViews ;;
  let view := find_view target views in
  match view with
  | Some _ =>
      savedViews_update (map_matching target used_at) ;;
      activeViewId_set (Some target) ;;
      activeViewModified_set false
  | None => ret tt
  end ;;
  ret view.

(** *** [viewActions.update] *)
Definition update (target : string) (updates : PartialSavedView)
  : Action unit :=
  require_browser "Cannot update views on server" ;;
  views <- get_savedViews ;;
  let view := find_view target views in
  match view with
  | Some _ =>
      savedViews_update (map_matching target (updated_at updates)) ;;
      activeViewModified_set false
  | None => ret tt
  end.

(** *** [viewActions.delete] *)
Definition delete (target : string) : Action unit :=
  require_browser "Cannot delete views on server" ;;
  views <- get_savedViews ;;
  let view := find_view target views in
  match view with
  | Some _ =>
      savedViews_update
        (fun views => ret (filter (fun v => negb (String.eqb (id v) target)) views)) ;;
      active <- get_activeViewId ;;
      match active with
      | Some a =>
          if String.eqb a target
          then activeViewId_set None ;; activeViewModified_set false
          else ret tt
      | None => ret tt
      end
  | None => ret tt
  end.

(** *** [viewActions.rename] *)
Definition rename (target : string) (newName : string) : Action unit :=
  require_browser "Cannot rename views on server" ;;
  views <- get_savedViews ;;
  let view := find_view target views in
  match view with
  | Some _ => savedViews_update (map_matching target (renamed_at newName))
  | None => ret tt
  end.

(** *** [viewActions.markModified], [viewActions.clearActive] *)
Definition markModified : Action unit := activeViewModified_set true.

Definition clearActive : Action unit :=
  activeViewId_set None ;; activeViewModified_set false.

(** *** [viewActions.nameExists] *)
Definition nameExists (n : string) (excludeId : option string) : Action bool :=
  if browser env then
    views <- get_savedViews ;;
    ret (existsb
           (fun v => String.eqb (name v) n
                     && negb (match excludeId with
                              | Some x => String.eqb (id v) x
                              | None => false
                              end))
           views)
  else ret false.

(** *** [viewActions.getStorageStats]

    The quotient is exact here.  In binary64 [(count / limit) * 100] lies
    within a rounding error of the integer [2 * count] for every array
    length, so [Math.round] returns the same integer as over the rationals. *)
Definition getStorageStats : Action StorageStats :=
  if browser env then
    views <- get_savedViews ;;
    let count := Z.of_nat (List.length views) in
    let limit := 50 in
    ret {| count := count; limit := limit;
           percentFull :=
             Math_round ((inject_Z count / inject_Z limit) * inject_Z 100) |}
  else ret {| count := 0; limit := 50; percentFull := 0 |}.

(** *** Sessions: sequences of calls *)
Definition perform (c : Command) (w : World) : World :=
  match c with
  | CSave input => world_after (save input w)
  | CLoad target => world_after (load target w)
  | CUpdate target updates => world_after (update target updates w)
  | CDelete target => world_after (delete target w)
  | CRename target newName => world_after (rename target newName w)
  | CMarkModified => world_after (markModified w)
  | CClearActive => world_after (clearActive w)
  end.

Definition run (cs : list Command) (w : World) : World :=
  fold_left (fun w' c => perform c w') cs w.

(** *** What [map_matching] computes, without the monad *)
Fixpoint stamped (target : string) (stamp : Z -> SavedView -> SavedView)
  (n : nat) (views : list SavedView) : list SavedView :=
  match views with
  | [] => []
  | v :: vs =>
      if String.eqb (id v) target
      then stamp (Date_now env n) v :: stamped target stamp (S n) vs
      else v :: stamped target stamp n vs
  end.

(** *** [ViewSelector.svelte] *)

Variable host : Host.

(** [$: filteredViews] *)
Definition filteredViews (ui : ViewSelector) (views : list SavedView)
  : list SavedView :=
  if truthy (searchQuery ui) then
    filter
      (fun v =>
         String_includes (String_toLowerCase host (searchQuery ui))
           (String_toLowerCase host (name v)))
      views
  else views.

(** [$: sortedViews] *)
Definition sortedViews (ui : ViewSelector) (views : list SavedView)
  : list SavedView :=
  Array_sort (fun a b => String_localeCompare host (name a) (name b))
    (filteredViews ui views).

Definition selectView (view : SavedView) (ui : ViewSelector)
  : Action (ViewSelector * list Signal) :=
  load (id view) ;;
  ret (closeDropdown ui, [viewSelected view]).

(** [handleKeydown(event)], with [key] the event's key.  [selectView] is
    started without being awaited: when it rejects, the handler has returned
    and the selector stays as it was. *)
Definition handleKeydown (key : string) (ui : ViewSelector)
  : Action (ViewSelector * list Signal) :=
  if negb (selector_open ui) || truthy_id (renamingId ui) then ret (ui, [])
  else
    views <- get_savedViews ;;
    let viewsList := sortedViews ui views in
    if String.eqb key "ArrowDown" then
      ret (set_selectedIndex
             (Z.min (selectedIndex ui + 1)
                (Z.of_nat (List.length viewsList) - 1)) ui, [])
    else if String.eqb key "ArrowUp" then
      ret (set_selectedIndex (Z.max (selectedIndex ui - 1) (-1)) ui, [])
    else if String.eqb key "Enter" then
      if (selectedIndex ui >=? 0)
         && (selectedIndex ui <? Z.of_nat (List.length viewsList))
      then
        match nth_error viewsList (Z.to_nat (selectedIndex ui)) with
        | Some view =>
            try_catch (selectView view ui) (fun _ => ret (ui, []))
        | None => ret (ui, [])
        end
      else ret (ui, [])
    else if String.eqb key "Escape" then ret (closeDropdown ui, [])
    else ret (ui, []).


(** [deleteView(id, event)], with [confirmed] the answer to the dialog. *)
Definition deleteView (target : string) (confirmed : bool)
  : Action (list Signal) :=
  views <- get_savedViews ;;
  match find_view target views with
  | None => ret []
  | Some _ =>
      if confirmed then delete target ;; ret [deleteView_event target]
      else ret []
  end.

(** The loop of [duplicateView]:
    [while (await viewActions.nameExists(duplicateName)) { ... counter++ }];
    [None] when the fuel runs out before the loop ends. *)
Fixpoint free_copy_name (fuel : nat) (base duplicateName : string)
  (counter : nat) : Action (option string) :=
  match fuel with
  | O => ret None
  | S fuel' =>
      taken <- nameExists duplicateName None ;;
      if taken
      then free_copy_name fuel' base (numbered_copy_name base counter)
             (S counter)
      else ret (Some duplicateName)
  end.

(** [duplicateView(view, event)]: the signals it raises, or [None] when the
    fuel runs out. *)
Definition duplicateView (fuel : nat) (view : SavedView)
  : Action (option (list Signal)) :=
  try_catch
    (found <- free_copy_name fuel (name view) (first_copy_name (name view)) 2 ;;
     match found with
     | None => ret None
     | Some duplicateName =>
         save {| in_name := duplicateName;
                 in_description := description view;
                 in_config := config view;
                 in_originalQuery := originalQuery view |} ;;
         ret (Some [])
     end)
    (fun _ => ret (Some [alert "Failed to duplicate view. Please try again."])).

(** A sequence of key presses, the signals in the order they are raised. *)
Fixpoint press_keys (keys : list string) (ui : ViewSelector)
  : Action (ViewSelector * list Signal) :=
  match keys with
  | [] => ret (ui, [])
  | key :: rest =>
      r <- handleKeydown key ui ;;
      r' <- press_keys rest (fst r) ;;
      ret (fst r', snd r ++ snd r')
  end.

(** *** [SaveViewModal.svelte] *)

(** [description.trim() || undefined] *)
Definition description_or_undefined (d : string) : option string :=
  if truthy (String_trim host d) then Some (String_trim host d) else None.

Definition handleSave (m : SaveViewModal)
  : Action (SaveViewModal * list Signal) :=
  if negb (truthy (String_trim host (modal_name m))) then
    ret (with_error "Name is required" m, [])
  else if (100 <? String.length (modal_name m))%nat then
    ret (with_error "Name must be 100 characters or less" m, [])
  else
    nameTaken <- nameExists (String_trim host (modal_name m)) None ;;
    if nameTaken then
      ret (with_error
             (String.append "View "
                (String.append double_quote
                   (String.append (String_trim host (modal_name m))
                      (String.append double_quote
                         " already exists. Please choose a different name."))))
             m, [])
    else
      stats <- getStorageStats ;;
      if count stats >=? limit stats then
        ret (with_error
               (String.append "Storage limit reached ("
                  (String.append (js_string_of_Z (limit stats))
                     " views). Please delete unused views."))
               m, [])
      else
        try_catch
          (savedView <-
             save {| in_name := String_trim host (modal_name m);
                     in_description :=
                       description_or_undefined (modal_description m);
                     in_config := modal_config m;
                     in_originalQuery := modal_originalQuery m |} ;;
           ret ({| modal_open := false; modal_config := modal_config m;
                   modal_originalQuery := modal_originalQuery m;
                   modal_name := modal_name m;
                   modal_description := modal_description m;
                   saving := false; error := "" |},
                [save_event (id savedView) (name savedView)]))
          (fun _ =>
             ret ({| modal_open := modal_open m; modal_config := modal_config m;
                     modal_originalQuery := modal_originalQuery m;
                     modal_name := modal_name m;
                     modal_description := modal_description m;
                     saving := false;
                     error := "Failed to save view. Please try again." |},
                  [])).


(** *** The demonstration page *)

(** The partial [{ config }]. *)
Definition config_only (c : TableConfig) : PartialSavedView :=
  {| p_id := None; p_name := None; p_description := None;
     p_config := Some c; p_originalQuery := None; p_createdAt := None;
     p_updatedAt := None; p_usageCount := None; p_lastUsed := None |}.

Definition handleUpdateView (t : DemoTable) : Action (list Signal) :=
  active <- get_activeViewId ;;
  match active with
  | Some a =>
      if truthy a then
        try_catch
          (update a (config_only (captureCurrentConfig t)) ;; ret [])
          (fun _ => ret [alert "Failed to update view. Please try again."])
      else ret []
  | None => ret []
  end.

Definition addFilter (t : DemoTable) : Action DemoTable :=
  markModified ;;
  ret (with_filters
         (demo_filters t ++
          [ {| columnId := "status"; operator := "equals";
               value := JsString "Active" |} ]) t).

Definition clearFilters (t : DemoTable) : Action DemoTable :=
  markModified ;;
  ret (with_filters [] t).

Definition toggleSort (target : string) (t : DemoTable) : Action DemoTable :=
  markModified ;;
  ret (with_sort (next_sort target (demo_sort t)) t).

(** The origins after one call: [save] appends a view without origin,
    [delete] drops the origins of the views it drops, the other calls rewrite
    the views in place. *)
Definition origins_after (c : Command) (w : World)
  (origins : list (option nat)) : list (option nat) :=
  match c with
  | CSave _ => if browser env then origins ++ [None] else origins
  | CDelete target =>
      if browser env then
        match find_view target (savedViews w) with
        | Some _ =>
            filter_origins (fun v => negb (String.eqb (id v) target))
              origins (savedViews w)
        | None => origins
        end
      else origins
  | _ => origins
  end.

(** The origins after a session that starts in [w] with [origins]. *)
Fixpoint origins_of (cs : list Command) (w : World)
  (origins : list (option nat)) : list (option nat) :=
  match cs with
  | [] => origins
  | c :: cs' => origins_of cs' (perform c w) (origins_after c w origins)
  end.

(** The generator never returns a value twice. *)
Definition never_repeats : Prop :=
  forall i j, randomUUID env i = randomUUID env j -> i = j.

(** After [n] draws: no stored id is a value the generator has yet to
    return. *)
Definition drawn_before (n : nat) (views : list SavedView) : Prop :=
  forall u k, In u views -> id u = randomUUID env k -> (k < n)%nat.

(** ** Running the operations *)

Ltac run_action :=
  unfold save, load, update, delete, rename, markModified, clearActive,
    getStorageStats, nameExists, require_browser, savedViews_update,
    get_savedViews, get_activeViewId, activeViewId_set,
    activeViewModified_set, Date_now_call, randomUUID_call,
    bind, ret, throw, result, world_after;
  cbn [fst snd].

Lemma map_matching_run (target : string) (stamp : Z -> SavedView -> SavedView)
  (views : list SavedView) (w : World) :
  map_matching target stamp views w =
  (Resolved (stamped target stamp (clock_reads w) views),
   set_clock_reads (clock_reads w + matches target views) w).
Proof.
  unfold map_matching, matches. revert w.
  induction views as [|v vs IH]; intros w.
  - destruct w. cbn. unfold ret, set_clock_reads. cbn.
    now rewrite Nat.add_0_r.
  - cbn [Array_map stamped filter]. unfold bind at 1.
    destruct (String.eqb (id v) target).
    + unfold bind at 1. unfold Date_now_call at 1. unfold ret at 1.
      unfold bind at 1. rewrite IH. unfold ret. cbn.
      unfold set_clock_reads. cbn. f_equal. f_equal. lia.
    + unfold ret at 1. unfold bind at 1. rewrite IH. reflexivity.
Qed.

Lemma save_run (input : SavedViewInput) (w : World) :
  browser env = true ->
  save input w =
  (let newView :=
     {| id := randomUUID env (uuid_draws w); name := in_name input;
        description := in_description input; config := in_config input;
        originalQuery := in_originalQuery input;
        createdAt := Date_now env (clock_reads w);
        updatedAt := Date_now env (S (clock_reads w));
        usageCount := 0;
        lastUsed := Date_now env (S (S (clock_reads w))) |} in
   (Resolved newView,
    {| savedViews := savedViews w ++ [newView];
       activeViewId := activeViewId w;
       activeViewModified := activeViewModified w;
       clock_reads := S (S (S (clock_reads w)));
       uuid_draws := S (uuid_draws w) |})).
Proof. intros Hb. run_action. rewrite Hb. reflexivity. Qed.

Lemma load_found (target : string) (w : World) (v : SavedView) :
  browser env = true ->
  find_view target (savedViews w) = Some v ->
  load target w =
  (Resolved (Some v),
   {| savedViews := stamped target used_at (clock_reads w) (savedViews w);
      activeViewId := Some target;
      activeViewModified := false;
      clock_reads := clock_reads w + matches target (savedViews w);
      uuid_draws := uuid_draws w |}).
Proof.
  intros Hb Hf. run_action. rewrite Hb, Hf, map_matching_run. reflexivity.
Qed.

Lemma load_missing (target : string) (w : World) :
  browser env = true ->
  find_view target (savedViews w) = None ->
  load target w = (Resolved None, w).
Proof. intros Hb Hf. run_action. rewrite Hb, Hf. reflexivity. Qed.

Lemma update_found (target : string) (updates : PartialSavedView)
  (w : World) (v : SavedView) :
  browser env = true ->
  find_view target (savedViews w) = Some v ->
  update target updates w =
  (Resolved tt,
   {| savedViews :=
        stamped target (updated_at updates) (clock_reads w) (savedViews w);
      activeViewId := activeViewId w;
      activeViewModified := false;
      clock_reads := clock_reads w + matches target (savedViews w);
      uuid_draws := uuid_draws w |}).
Proof.
  intros Hb Hf. run_action. rewrite Hb, Hf, map_matching_run. reflexivity.
Qed.

Lemma update_missing (target : string) (updates : PartialSavedView)
  (w : World) :
  browser env = true ->
  find_view target (savedViews w) = None ->
  update target updates w = (Resolved tt, w).
Proof. intros Hb Hf. run_action. rewrite Hb, Hf. reflexivity. Qed.

Lemma rename_found (target newName : string) (w : World) (v : SavedView) :
  browser env = true ->
  find_view target (savedViews w) = Some v ->
  rename target newName w =
  (Resolved tt,
   {| savedViews :=
        stamped target (renamed_at newName) (clock_reads w) (savedViews w);
      activeViewId := activeViewId w;
      activeViewModified := activeViewModified w;
      clock_reads := clock_reads w + matches target (savedViews w);
      uuid_draws := uuid_draws w |}).
Proof.
  intros Hb Hf. run_action. rewrite Hb, Hf, map_matching_run. reflexivity.
Qed.

Lemma rename_missing (target newName : string) (w : World) :
  browser env = true ->
  find_view target (savedViews w) = None ->
  rename target newName w = (Resolved tt, w).
Proof. intros Hb Hf. run_action. rewrite Hb, Hf. reflexivity. Qed.

Lemma delete_found (target : string) (w : World) (v : SavedView) :
  browser env = true ->
  find_view target (savedViews w) = Some v ->
  delete target w =
  (Resolved tt,
   let kept :=
     filter (fun v' => negb (String.eqb (id v') target)) (savedViews w) in
   match activeViewId w with
   | Some a =>
       if String.eqb a target
       then {| savedViews := kept; activeViewId := None;
               activeViewModified := false;
               clock_reads := clock_reads w; uuid_draws := uuid_draws w |}
       else set_savedViews kept w
   | None => set_savedViews kept w
   end).
Proof.
  intros Hb Hf. run_action. rewrite Hb, Hf. cbn.
  destruct (activeViewId w) as [a|]; [|reflexivity].
  destruct (String.eqb a target); reflexivity.
Qed.

Lemma delete_missing (target : string) (w : World) :
  browser env = true ->
  find_view target (savedViews w) = None ->
  delete target w = (Resolved tt, w).
Proof. intros Hb Hf. run_action. rewrite Hb, Hf. reflexivity. Qed.

(** On the server every mutating operation rejects and touches nothing. *)
Lemma server_rejects (w : World) :
  browser env = false ->
  (forall input, save input w = (Rejected "Cannot save views on server", w)) /\
  (forall target, load target w = (Rejected "Cannot load views on server", w)) /\
  (forall target updates,
     update target updates w = (Rejected "Cannot update views on server", w)) /\
  (forall target,
     delete target w = (Rejected "Cannot delete views on server", w)) /\
  (forall target newName,
     rename target newName w = (Rejected "Cannot rename views on server", w)).
Proof.
  intros Hb. repeat split; intros; run_action; rewrite Hb; reflexivity.
Qed.

(** ** Lookup by id *)

Lemma find_view_present (target : string) (views : list SavedView) :
  present target views <-> exists v, find_view target views = Some v.
Proof.
  unfold present, find_view. split.
  - intros (v & Hin & Hid).
    destruct (find (fun v0 => String.eqb (id v0) target) views) as [u|] eqn:E.
    + now exists u.
    + apply (find_none _ _ E) in Hin. cbn in Hin.
      rewrite Hid, String.eqb_refl in Hin. discriminate.
  - intros (v & Hf). apply find_some in Hf. cbn in Hf.
    destruct Hf as [Hin Heq]. apply String.eqb_eq in Heq. now exists v.
Qed.

Lemma find_view_absent (target : string) (views : list SavedView) :
  ~ present target views <-> find_view target views = None.
Proof.
  rewrite find_view_present. split.
  - intros H. destruct (find_view target views) as [v|]; [|reflexivity].
    exfalso. apply H. now exists v.
  - intros H (v & Hv). congruence.
Qed.

Lemma find_view_id (target : string) (views : list SavedView) (v : SavedView) :
  find_view target views = Some v -> In v views /\ id v = target.
Proof.
  unfold find_view. intros Hf. apply find_some in Hf. cbn in Hf.
  destruct Hf as [Hin Heq]. now apply String.eqb_eq in Heq.
Qed.

Lemma matches_present (target : string) (views : list SavedView) :
  present target views -> (0 < matches target views)%nat.
Proof.
  unfold matches. intros (v & Hin & Hid).
  assert (Hf : In v (filter (fun v0 => String.eqb (id v0) target) views)).
  { apply filter_In. split; [assumption|]. rewrite Hid. apply String.eqb_refl. }
  destruct (filter _ views); [destruct Hf | cbn; lia].
Qed.

(** ** The rewriting pass *)

Lemma rewritten_widen (now : nat -> Z) (target : string)
  (change : Z -> SavedView -> SavedView -> Prop) (lo hi lo' hi' : nat)
  (before after : list SavedView) :
  (lo' <= lo)%nat -> (hi <= hi')%nat ->
  rewritten now target change lo hi before after ->
  rewritten now target change lo' hi' before after.
Proof.
  unfold rewritten. intros Hlo Hhi H.
  induction H as [|v v' l l' Hv _ IH]; constructor; [|exact IH].
  destruct (String.eqb (id v) target); [|exact Hv].
  destruct Hv as (k & Hk & Hc). exists k. split; [lia | exact Hc].
Qed.

Lemma stamped_rewritten (target : string)
  (stamp : Z -> SavedView -> SavedView) (views : list SavedView) (n : nat) :
  rewritten (Date_now env) target (fun t v v' => v' = stamp t v)
    n (n + matches target views) views (stamped target stamp n views).
Proof.
  revert n. induction views as [|v vs IH]; intros n.
  - constructor.
  - unfold rewritten, matches. cbn [stamped filter].
    destruct (String.eqb (id v) target) eqn:E.
    + constructor.
      * rewrite E. exists n. cbn [List.length]. split; [lia | reflexivity].
      * specialize (IH (S n)).
        apply rewritten_widen with (lo' := n)
          (hi' := (n + S (matches target vs))%nat) in IH; [exact IH | lia | lia].
    + constructor.
      * now rewrite E.
      * apply IH.
Qed.

Lemma stamped_find (target : string) (stamp : Z -> SavedView -> SavedView)
  (views : list SavedView) (n : nat) :
  (forall t v, id (stamp t v) = id v) ->
  find_view target (stamped target stamp n views) =
  option_map (stamp (Date_now env n)) (find_view target views).
Proof.
  intros Hid. unfold find_view.
  induction views as [|v vs IH]; [reflexivity|].
  cbn [stamped find]. destruct (String.eqb (id v) target) eqn:E.
  - cbn [find]. rewrite Hid, E. reflexivity.
  - cbn [find]. rewrite E. exact IH.
Qed.

Lemma Number_plus_one_safe (x : Z) :
  safe_to_increment x -> Number_plus_one x = x + 1.
Proof.
  unfold safe_to_increment, Number_plus_one. intros [Hlo Hhi].
  destruct (Z.leb_spec (- 2 ^ 53) x); [|lia].
  destruct (Z.ltb_spec x (2 ^ 53)); [reflexivity | lia].
Qed.

Lemma Number_plus_one_bounds (x : Z) :
  x <= Number_plus_one x <= x + 2.
Proof.
  unfold Number_plus_one.
  destruct ((- 2 ^ 53 <=? x) && (x <? 2 ^ 53)); [lia|].
  destruct ((- 2 ^ 54 <=? x) && (x <? 2 ^ 54)); [|lia].
  destruct (Z.even (x / 2)); lia.
Qed.

Lemma used_at_once (t : Z) (v : SavedView) : used_once t v (used_at t v).
Proof.
  unfold used_once, used_at. cbn [usageCount lastUsed id name description
    config originalQuery createdAt updatedAt].
  repeat split. apply Number_plus_one_safe.
Qed.

(** ** [load] *)

(** C6, as the code has it: [load] of a present id gives the views with
    that id the count that [usageCount + 1] evaluates to (exactly one more
    use for a count that is safe to increment) and the time of a clock read
    of the call, leaves every other view as it is, makes the id active and
    clears the modified flag; [load] of an absent id resolves to not-found
    and changes nothing. *)
Theorem load_effect (target : string) (w : World) :
  browser env = true ->
  let w' := world_after (load target w) in
  (present target (savedViews w) ->
     rewritten (Date_now env) target used_once
       (clock_reads w) (clock_reads w') (savedViews w) (savedViews w') /\
     activeViewId w' = Some target /\
     activeViewModified w' = false) /\
  (~ present target (savedViews w) ->
     result (load target w) = Resolved None /\
     savedViews w' = savedViews w /\
     activeViewId w' = activeViewId w /\
     activeViewModified w' = activeViewModified w).
Proof.
  intros Hb w'. subst w'. split.
  - intros Hp. apply find_view_present in Hp. destruct Hp as (v & Hf).
    rewrite (load_found _ _ _ Hb Hf). cbn [world_after snd savedViews
      activeViewId activeViewModified clock_reads]. split; [|split; reflexivity].
    generalize (stamped_rewritten target used_at (savedViews w) (clock_reads w)).
    unfold rewritten. apply Forall2_impl. intros a b.
    destruct (String.eqb (id a) target); [|exact (fun H => H)].
    intros (k & Hk & ->). exists k. split; [exact Hk | apply used_at_once].
  - intros Hp. apply find_view_absent in Hp.
    rewrite (load_missing _ _ Hb Hp). cbn. repeat split.
Qed.

(** C10: the view [load] resolves to is the one found before the usage
    statistics are rewritten: it is a view of the old collection and carries
    the old [usageCount] and [lastUsed], while the view stored under the id
    carries the count the addition gives (one more, for a count that is safe
    to increment) and the time of the call's first clock read. *)
Theorem load_returns_snapshot (target : string) (w : World) :
  browser env = true ->
  present target (savedViews w) ->
  exists v,
    find_view target (savedViews w) = Some v /\
    In v (savedViews w) /\
    result (load target w) = Resolved (Some v) /\
    exists v',
      find_view target (savedViews (world_after (load target w))) = Some v' /\
      usageCount v' = Number_plus_one (usageCount v) /\
      (safe_to_increment (usageCount v) ->
       usageCount v' = usageCount v + 1) /\
      lastUsed v' = Date_now env (clock_reads w).
Proof.
  intros Hb Hp. apply find_view_present in Hp. destruct Hp as (v & Hf).
  exists v. split; [exact Hf|]. split; [now apply find_view_id in Hf|].
  rewrite (load_found _ _ _ Hb Hf). split; [reflexivity|].
  exists (used_at (Date_now env (clock_reads w)) v).
  cbn [world_after snd savedViews].
  rewrite stamped_find by reflexivity. rewrite Hf.
  cbn [option_map used_at usageCount lastUsed].
  repeat split. apply Number_plus_one_safe.
Qed.

(** ** [delete] *)

Lemma filter_drops_target (target : string) (views : list SavedView) :
  ~ present target
      (filter (fun v => negb (String.eqb (id v) target)) views).
Proof.
  intros (v & Hin & Hid). apply filter_In in Hin. destruct Hin as [_ Hne].
  rewrite Hid, String.eqb_refl in Hne. discriminate.
Qed.

(** C7: [delete] of the active, existing view removes it and resets the
    active id and the modified flag; [delete] of an existing view that is not
    the active one removes it and leaves both as they are; [delete] of an id
    that is not in the collection changes nothing. *)
Theorem delete_effect (target : string) (w : World) :
  browser env = true ->
  let w' := world_after (delete target w) in
  let kept := filter (fun v => negb (String.eqb (id v) target)) (savedViews w) in
  (present target (savedViews w) -> activeViewId w = Some target ->
     savedViews w' = kept /\ ~ present target (savedViews w') /\
     activeViewId w' = None /\ activeViewModified w' = false) /\
  (present target (savedViews w) -> activeViewId w <> Some target ->
     savedViews w' = kept /\ ~ present target (savedViews w') /\
     activeViewId w' = activeViewId w /\
     activeViewModified w' = activeViewModified w) /\
  (~ present target (savedViews w) -> w' = w).
Proof.
  intros Hb w' kept. subst w' kept. split; [|split].
  - intros Hp Ha. apply find_view_present in Hp. destruct Hp as (v & Hf).
    rewrite (delete_found _ _ _ Hb Hf). cbn [world_after snd].
    rewrite Ha, String.eqb_refl. cbn. auto using filter_drops_target.
  - intros Hp Ha. apply find_view_present in Hp. destruct Hp as (v & Hf).
    rewrite (delete_found _ _ _ Hb Hf). cbn [world_after snd].
    destruct (activeViewId w) as [a|] eqn:Ea.
    + destruct (String.eqb_spec a target) as [->|Hne]; [congruence|].
      cbn. auto using filter_drops_target.
    + cbn. auto using filter_drops_target.
  - intros Hp. apply find_view_absent in Hp.
    now rewrite (delete_missing _ _ Hb Hp).
Qed.

(** ** [save] *)

(** C5: [save] rejects exactly when there is no browser; in a browser it
    resolves and appends the view whatever the size of the collection and
    whatever names the collection already holds. *)
Theorem save_rejects_only_on_server (input : SavedViewInput) (w : World) :
  ((exists msg, result (save input w) = Rejected msg) <->
   browser env = false) /\
  (browser env = true ->
   exists v,
     result (save input w) = Resolved v /\
     name v = in_name input /\
     savedViews (world_after (save input w)) = savedViews w ++ [v]).
Proof.
  split.
  - destruct (browser env) eqn:Hb.
    + rewrite (save_run _ _ Hb). cbn. split; [|discriminate].
      intros (msg & H). discriminate.
    + destruct (server_rejects w Hb) as (Hs & _). rewrite Hs. cbn.
      split; [reflexivity|]. intros _. eexists. reflexivity.
  - intros Hb. rewrite (save_run _ _ Hb). cbn. eexists. repeat split.
Qed.

(** ** [getStorageStats] *)

Lemma Math_round_integer (z : Z) (q : Q) :
  q == inject_Z z -> Math_round q = z.
Proof.
  intros Hq. unfold Math_round. rewrite Hq.
  apply Z.le_antisymm.
  - apply Z.lt_succ_r. rewrite Zlt_Qlt.
    apply Qle_lt_trans with (y := (inject_Z z + (1 # 2))%Q);
      [apply Qfloor_le|].
    unfold Z.succ. rewrite inject_Z_plus. apply Qplus_lt_r. reflexivity.
  - rewrite <- (Qfloor_Z z) at 1. apply Qfloor_resp_le.
    rewrite <- (Qplus_0_r (inject_Z z)) at 1.
    apply Qplus_le_r. discriminate.
Qed.

Lemma percent_as_computed (c : Z) :
  (inject_Z c / inject_Z 50 * inject_Z 100 == inject_Z (2 * c))%Q.
Proof. rewrite inject_Z_mult. field. Qed.

Lemma percent_as_specified (c : Z) :
  (inject_Z 100 * inject_Z c / inject_Z 50 == inject_Z (2 * c))%Q.
Proof. rewrite inject_Z_mult. field. Qed.

(** C9: in a browser [getStorageStats] reports the number of views, the
    limit 50 and [round (100 * count / limit)]; on the server it reports the
    defaults, zero views and zero percent of the same limit.  It never
    changes the store. *)
Theorem getStorageStats_spec (w : World) :
  exists st,
    getStorageStats w = (Resolved st, w) /\
    if browser env then
      count st = Z.of_nat (List.length (savedViews w)) /\
      limit st = 50 /\
      percentFull st =
        Math_round (inject_Z 100 * inject_Z (count st) / inject_Z (limit st))
    else
      count st = 0 /\ limit st = 50 /\ percentFull st = 0.
Proof.
  run_action. destruct (browser env).
  - eexists. split; [reflexivity|]. cbn [count limit percentFull].
    repeat split.
    rewrite (Math_round_integer _ _ (percent_as_computed _)).
    now rewrite (Math_round_integer _ _ (percent_as_specified _)).
  - eexists. split; [reflexivity|]. cbn. repeat split.
Qed.

(** ** [update] and [rename] *)

Lemma updated_at_merged (updates : PartialSavedView) (t : Z) (v : SavedView) :
  merged updates t v (updated_at updates t v).
Proof. unfold merged, updated_at. cbn. intuition. Qed.

Lemma rewritten_impl (now : nat -> Z) (target : string)
  (change change' : Z -> SavedView -> SavedView -> Prop) (lo hi : nat)
  (before after : list SavedView) :
  (forall t v v', change t v v' -> change' t v v') ->
  rewritten now target change lo hi before after ->
  rewritten now target change' lo hi before after.
Proof.
  unfold rewritten. intros Himp. apply Forall2_impl. intros v v'.
  destruct (String.eqb (id v) target); [|exact (fun H => H)].
  intros (k & Hk & Hc). exists k. split; [exact Hk | now apply Himp].
Qed.

Lemma rewritten_pointwise (now : nat -> Z) (target : string)
  (change : Z -> SavedView -> SavedView -> Prop) (lo hi : nat)
  (before after : list SavedView) (R : SavedView -> SavedView -> Prop) :
  (forall v, R v v) ->
  (forall k v v', (lo <= k < hi)%nat -> id v = target ->
                  change (now k) v v' -> R v v') ->
  rewritten now target change lo hi before after ->
  Forall2 R before after.
Proof.
  unfold rewritten. intros Hrefl Hch. apply Forall2_impl. intros v v'.
  destruct (String.eqb_spec (id v) target) as [Heq|Hne].
  - intros (k & Hk & Hc). now apply (Hch k).
  - intros ->. apply Hrefl.
Qed.

(** C1, as the code has it: [update] of a present id merges the partial into
    the views with that id (every key the partial carries replaces the stored
    one, [id] and [createdAt] included), stamps [updatedAt] with a clock read
    of the call whatever the partial says, leaves the other views alone and
    clears the modified flag; [id] and [createdAt] stay as they are when the
    partial does not carry them. *)
Theorem update_effect (target : string) (updates : PartialSavedView)
  (w : World) :
  browser env = true ->
  present target (savedViews w) ->
  let w' := world_after (update target updates w) in
  rewritten (Date_now env) target (merged updates)
    (clock_reads w) (clock_reads w') (savedViews w) (savedViews w') /\
  activeViewModified w' = false /\
  activeViewId w' = activeViewId w /\
  (p_id updates = None -> p_createdAt updates = None ->
   Forall2 (fun v v' => id v' = id v /\ createdAt v' = createdAt v)
     (savedViews w) (savedViews w')).
Proof.
  intros Hb Hp w'. subst w'.
  apply find_view_present in Hp. destruct Hp as (v & Hf).
  rewrite (update_found _ _ _ _ Hb Hf).
  cbn [world_after snd savedViews activeViewId activeViewModified clock_reads].
  assert (Hrw : rewritten (Date_now env) target (merged updates)
                  (clock_reads w)
                  (clock_reads w + matches target (savedViews w))
                  (savedViews w)
                  (stamped target (updated_at updates) (clock_reads w)
                     (savedViews w))).
  { eapply rewritten_impl; [|apply stamped_rewritten].
    intros t a b ->. apply updated_at_merged. }
  split; [exact Hrw|]. split; [reflexivity|]. split; [reflexivity|].
  intros Hid Hc. revert Hrw. apply rewritten_pointwise; [now split|].
  intros k a b _ _ Hm. unfold merged in Hm. rewrite Hid, Hc in Hm.
  cbn in Hm. intuition.
Qed.

(** C2, as the code has it: [rename] leaves the same collection and the same
    active id as [update] with the partial that carries only the name, but it
    keeps the modified flag where [update] clears it; the two resulting
    worlds are the same exactly when the flag has nothing to lose. *)
Theorem rename_update_agree (target newName : string) (w : World) :
  let r := world_after (rename target newName w) in
  let u := world_after (update target (name_only newName) w) in
  savedViews r = savedViews u /\
  activeViewId r = activeViewId u /\
  activeViewModified r = activeViewModified w /\
  activeViewModified u =
    (if browser env
     then match find_view target (savedViews w) with
          | Some _ => false
          | None => activeViewModified w
          end
     else activeViewModified w) /\
  (activeViewModified r = activeViewModified u -> r = u).
Proof.
  intros r u. subst r u. destruct (browser env) eqn:Hb.
  - destruct (find_view target (savedViews w)) as [v|] eqn:Hf.
    + rewrite (rename_found _ _ _ _ Hb Hf), (update_found _ _ _ _ Hb Hf).
      cbn [world_after snd savedViews activeViewId activeViewModified].
      change (stamped target (updated_at (name_only newName)))
        with (stamped target (renamed_at newName)).
      repeat split. intros ->. reflexivity.
    + rewrite (rename_missing _ _ _ Hb Hf), (update_missing _ _ _ Hb Hf).
      cbn. repeat split.
  - destruct (server_rejects w Hb) as (_ & _ & Hu & _ & Hr).
    rewrite Hu, Hr. cbn. repeat split.
Qed.

(** C4, as the code has it: in a browser [save] resolves to a view whose id
    is the value drawn from [randomUUID], whose [createdAt], [updatedAt] and
    [lastUsed] are the three clock reads of the call in that order (equal
    when the clock stands still across them), whose [usageCount] is 0 and
    which carries the input; the collection becomes the old one followed by
    that view.  When no stored id is a value the generator has yet to
    return, the id is that of no existing view; and under a generator that
    never repeats the same is true of the collection [save] leaves, so that
    the next [save] finds it so. *)
Theorem save_effect (input : SavedViewInput) (w : World) :
  browser env = true ->
  exists v,
    result (save input w) = Resolved v /\
    savedViews (world_after (save input w)) = savedViews w ++ [v] /\
    uuid_draws (world_after (save input w)) = S (uuid_draws w) /\
    id v = randomUUID env (uuid_draws w) /\
    (drawn_before (uuid_draws w) (savedViews w) ->
     ~ present (id v) (savedViews w) /\
     (never_repeats ->
      drawn_before (uuid_draws (world_after (save input w)))
        (savedViews (world_after (save input w))))) /\
    createdAt v = Date_now env (clock_reads w) /\
    updatedAt v = Date_now env (S (clock_reads w)) /\
    lastUsed v = Date_now env (S (S (clock_reads w))) /\
    (Date_now env (S (clock_reads w)) = Date_now env (clock_reads w) ->
     Date_now env (S (S (clock_reads w))) = Date_now env (clock_reads w) ->
     createdAt v = updatedAt v /\ updatedAt v = lastUsed v) /\
    usageCount v = 0 /\
    name v = in_name input /\ description v = in_description input /\
    config v = in_config input /\ originalQuery v = in_originalQuery input.
Proof.
  intros Hb. rewrite (save_run _ _ Hb). cbn zeta. eexists.
  cbn [result world_after fst snd savedViews uuid_draws id createdAt updatedAt
       lastUsed usageCount name description config originalQuery].
  split; [reflexivity|]. split; [reflexivity|]. split; [reflexivity|].
  split; [reflexivity|]. split.
  - intros Hd. split.
    + intros (u & Hin & Hid). specialize (Hd u (uuid_draws w) Hin Hid). lia.
    + intros Hinj u k Hin Hid. apply in_app_or in Hin.
      destruct Hin as [Hin|[<-|[]]].
      * specialize (Hd u k Hin Hid). lia.
      * cbn in Hid. apply Hinj in Hid. lia.
  - repeat split; cbn; congruence.
Qed.

(** ** Lifetimes *)

Section Continuation.

Variable R : SavedView -> SavedView -> Prop.
Hypothesis R_refl : forall v, R v v.
Hypothesis R_trans : forall a b c, R a b -> R b c -> R a c.

Lemma continues_from_the_start (prefix views : list SavedView) :
  continues R (prefix ++ views)
    (map Some (seq (List.length prefix) (List.length views))) views.
Proof.
  unfold continues. revert prefix.
  induction views as [|v vs IH]; intros prefix; cbn; constructor.
  - exists v. split; [|apply R_refl].
    rewrite nth_error_app2 by lia. now rewrite Nat.sub_diag.
  - specialize (IH (prefix ++ [v])).
    rewrite <- app_assoc, length_app in IH. cbn in IH.
    now rewrite Nat.add_1_r in IH.
Qed.

Lemma continues_initially (views : list SavedView) :
  continues R views (initial_origins views) views.
Proof. exact (continues_from_the_start [] views). Qed.

Lemma continues_rewritten (start : list SavedView)
  (origins : list (option nat)) (current current' : list SavedView) :
  continues R start origins current ->
  Forall2 R current current' ->
  continues R start origins current'.
Proof.
  unfold continues. intros H. revert current'.
  induction H as [|o v os vs Hov _ IH]; intros current' H2;
    inversion H2 as [|a b l l' Hab Hl]; subst; constructor.
  - destruct o as [i|]; [|exact I].
    destruct Hov as (v0 & Hn & Hr). exists v0. split; [exact Hn|].
    now apply R_trans with (b := v).
  - now apply IH.
Qed.

Lemma continues_appended (start : list SavedView)
  (origins : list (option nat)) (current : list SavedView) (v : SavedView) :
  continues R start origins current ->
  continues R start (origins ++ [None]) (current ++ [v]).
Proof.
  unfold continues. intros H. apply Forall2_app; [exact H|].
  constructor; [exact I | constructor].
Qed.

Lemma continues_filtered (keep : SavedView -> bool) (start : list SavedView)
  (origins : list (option nat)) (current : list SavedView) :
  continues R start origins current ->
  continues R start (filter_origins keep origins current)
    (filter keep current).
Proof.
  unfold continues, filter_origins.
  induction 1 as [|o v os vs Hov _ IH]; cbn; [constructor|].
  destruct (keep v); cbn; [constructor; assumption | exact IH].
Qed.

(** A regime: what holds of every stored view at a given number of clock
    reads, kept by every stamp of the calls a test [ok] admits. *)
Variable holds : nat -> SavedView -> Prop.
Variable ok : Command -> Prop.

Hypothesis holds_later :
  forall n n' v, (n <= n')%nat -> holds n v -> holds n' v.
Hypothesis used_at_kept :
  forall n k n' v, (n <= k < n')%nat -> holds n v ->
    R v (used_at (Date_now env k) v) /\
    holds n' (used_at (Date_now env k) v).
Hypothesis renamed_at_kept :
  forall newName n k n' v, (n <= k < n')%nat -> holds n v ->
    R v (renamed_at newName (Date_now env k) v) /\
    holds n' (renamed_at newName (Date_now env k) v).
Hypothesis updated_at_kept :
  forall target updates, ok (CUpdate target updates) ->
  forall n k n' v, (n <= k < n')%nat -> holds n v ->
    R v (updated_at updates (Date_now env k) v) /\
    holds n' (updated_at updates (Date_now env k) v).
Hypothesis saved_holds :
  forall input new_id n,
    holds (S (S (S n)))
      {| id := new_id; name := in_name input;
         description := in_description input; config := in_config input;
         originalQuery := in_originalQuery input;
         createdAt := Date_now env n;
         updatedAt := Date_now env (S n);
         usageCount := 0;
         lastUsed := Date_now env (S (S n)) |}.

Lemma stamped_kept (target : string) (stamp : Z -> SavedView -> SavedView)
  (views : list SavedView) (n : nat) :
  (forall n0 k n' v, (n0 <= k < n')%nat -> holds n0 v ->
     R v (stamp (Date_now env k) v) /\ holds n' (stamp (Date_now env k) v)) ->
  Forall (holds n) views ->
  Forall2 R views (stamped target stamp n views) /\
  Forall (holds (n + matches target views)) (stamped target stamp n views).
Proof.
  intros Hs. revert n. induction views as [|v vs IH]; intros n Hall.
  - split; constructor.
  - inversion Hall as [|a l Hv Hvs]; subst. unfold matches.
    cbn [stamped filter]. destruct (String.eqb (id v) target).
    + cbn [List.length]. fold (matches target vs).
      destruct (Hs n n (n + S (matches target vs))%nat v ltac:(lia) Hv)
        as [Ha Ht].
      destruct (IH (S n)) as [IH2 IHt].
      { revert Hvs. apply Forall_impl. intros a. apply holds_later. lia. }
      replace (n + S (matches target vs))%nat
        with (S n + matches target vs)%nat in * by lia.
      split; constructor; assumption.
    + fold (matches target vs). destruct (IH n Hvs) as [IH2 IHt].
      split; constructor; try assumption; [apply R_refl|].
      revert Hv. apply holds_later. lia.
Qed.

Lemma perform_kept (c : Command) (w : World) (start : list SavedView)
  (origins : list (option nat)) :
  ok c ->
  Forall (holds (clock_reads w)) (savedViews w) ->
  continues R start origins (savedViews w) ->
  Forall (holds (clock_reads (perform c w))) (savedViews (perform c w)) /\
  continues R start (origins_after c w origins) (savedViews (perform c w)).
Proof.
  intros Hok Hall Hc.
  destruct c as [input|target|target updates|target|target newName| |];
    cbn [perform origins_after].
  - destruct (browser env) eqn:Hb.
    + rewrite (save_run _ _ Hb).
      cbn [world_after snd savedViews clock_reads]. split.
      * apply Forall_app. split.
        -- revert Hall. apply Forall_impl. intros a. apply holds_later. lia.
        -- constructor; [apply saved_holds | constructor].
      * now apply continues_appended.
    + destruct (server_rejects w Hb) as (Hs & _). rewrite Hs. now split.
  - destruct (browser env) eqn:Hb.
    + destruct (find_view target (savedViews w)) as [v|] eqn:Hf.
      * rewrite (load_found _ _ _ Hb Hf).
        cbn [world_after snd savedViews clock_reads].
        destruct (stamped_kept target used_at (savedViews w) (clock_reads w)
                    used_at_kept Hall) as [H2 Hh].
        split; [exact Hh|]. now apply continues_rewritten with (1 := Hc).
      * rewrite (load_missing _ _ Hb Hf). now split.
    + destruct (server_rejects w Hb) as (_ & Hl & _). rewrite Hl. now split.
  - destruct (browser env) eqn:Hb.
    + destruct (find_view target (savedViews w)) as [v|] eqn:Hf.
      * rewrite (update_found _ _ _ _ Hb Hf).
        cbn [world_after snd savedViews clock_reads].
        destruct (stamped_kept target (updated_at updates) (savedViews w)
                    (clock_reads w) (updated_at_kept target updates Hok) Hall)
          as [H2 Hh].
        split; [exact Hh|]. now apply continues_rewritten with (1 := Hc).
      * rewrite (update_missing _ _ _ Hb Hf). now split.
    + destruct (server_rejects w Hb) as (_ & _ & Hu & _). rewrite Hu.
      now split.
  - destruct (browser env) eqn:Hb.
    + destruct (find_view target (savedViews w)) as [v|] eqn:Hf.
      * assert (Hshape :
          savedViews (world_after (delete target w)) =
            filter (fun v' => negb (String.eqb (id v') target)) (savedViews w)
          /\ clock_reads (world_after (delete target w)) = clock_reads w).
        { rewrite (delete_found _ _ _ Hb Hf). cbn [world_after snd].
          destruct (activeViewId w) as [a|];
            [destruct (String.eqb a target)|]; cbn; auto. }
        destruct Hshape as (-> & ->). split.
        -- apply Forall_forall. intros a Ha. apply filter_In in Ha.
           rewrite Forall_forall in Hall. apply Hall. tauto.
        -- now apply continues_filtered.
      * rewrite (delete_missing _ _ Hb Hf). now split.
    + destruct (server_rejects w Hb) as (_ & _ & _ & Hd & _). rewrite Hd.
      now split.
  - destruct (browser env) eqn:Hb.
    + destruct (find_view target (savedViews w)) as [v|] eqn:Hf.
      * rewrite (rename_found _ _ _ _ Hb Hf).
        cbn [world_after snd savedViews clock_reads].
        destruct (stamped_kept target (renamed_at newName) (savedViews w)
                    (clock_reads w) (renamed_at_kept newName) Hall)
          as [H2 Hh].
        split; [exact Hh|]. now apply continues_rewritten with (1 := Hc).
      * rewrite (rename_missing _ _ _ Hb Hf). now split.
    + destruct (server_rejects w Hb) as (_ & _ & _ & _ & Hr). rewrite Hr.
      now split.
  - run_action. cbn. now split.
  - run_action. cbn. now split.
Qed.

Lemma run_kept (cs : list Command) (w : World) (start : list SavedView)
  (origins : list (option nat)) :
  Forall ok cs ->
  Forall (holds (clock_reads w)) (savedViews w) ->
  continues R start origins (savedViews w) ->
  Forall (holds (clock_reads (run cs w))) (savedViews (run cs w)) /\
  continues R start (origins_of cs w origins) (savedViews (run cs w)).
Proof.
  revert w origins. induction cs as [|c cs IH]; intros w origins Hok Hall Hc.
  - now split.
  - inversion Hok as [|a l Hc1 Hcs]; subst.
    destruct (perform_kept c w start origins Hc1 Hall Hc) as [Hall1 Hcont1].
    change (run (c :: cs) w) with (run cs (perform c w)).
    cbn [origins_of]. now apply IH.
Qed.

Lemma session_kept (cs : list Command) (w : World) :
  Forall ok cs ->
  Forall (holds (clock_reads w)) (savedViews w) ->
  Forall (holds (clock_reads (run cs w))) (savedViews (run cs w)) /\
  continues R (savedViews w)
    (origins_of cs w (initial_origins (savedViews w)))
    (savedViews (run cs w)).
Proof.
  intros Hok Hall. apply run_kept; [exact Hok | exact Hall |].
  apply continues_initially.
Qed.

End Continuation.

(** C3, as the code has it.  Every view is followed through the session by
    its position (through [map], [filter] and the append of [save]).
    - Its id never changes, along calls whose [update] partials carry no
      [id].
    - Its [usageCount] never goes down, along calls whose [update] partials
      carry no [usageCount].
    - Its [lastUsed] never goes down, along calls whose [update] partials
      carry no [lastUsed], under a clock whose reads never go down, from a
      collection whose [lastUsed] are not ahead of the clock.
    - [createdAt <= updatedAt] holds of every view at the end, along calls
      whose [update] partials carry no [createdAt], under such a clock, from
      a collection where it holds and no [createdAt] is ahead of the
      clock. *)
Theorem lifetime_invariants (cs : list Command) (w : World) :
  let w' := run cs w in
  let origins := origins_of cs w (initial_origins (savedViews w)) in
  (Forall keeps_id cs ->
   continues (fun v v' => id v' = id v) (savedViews w) origins
     (savedViews w')) /\
  (Forall keeps_usageCount cs ->
   continues (fun v v' => usageCount v <= usageCount v') (savedViews w)
     origins (savedViews w')) /\
  ((forall i j, (i <= j)%nat -> Date_now env i <= Date_now env j) ->
   Forall keeps_lastUsed cs ->
   Forall (fun v => lastUsed v <= Date_now env (clock_reads w))
     (savedViews w) ->
   continues (fun v v' => lastUsed v <= lastUsed v') (savedViews w) origins
     (savedViews w') /\
   Forall (fun v => lastUsed v <= Date_now env (clock_reads w'))
     (savedViews w')) /\
  ((forall i j, (i <= j)%nat -> Date_now env i <= Date_now env j) ->
   Forall keeps_createdAt cs ->
   Forall (fun v => createdAt v <= updatedAt v /\
                    createdAt v <= Date_now env (clock_reads w))
     (savedViews w) ->
   Forall (fun v => createdAt v <= updatedAt v /\
                    createdAt v <= Date_now env (clock_reads w'))
     (savedViews w')).
Proof.
  intros w' origins. subst w' origins. split; [|split; [|split]].
  - intros Hok. eapply proj2.
    apply session_kept with (holds := fun _ _ => True) (ok := keeps_id).
    + reflexivity.
    + intros a b c Hab Hbc. congruence.
    + intros; exact I.
    + intros; split; [reflexivity | exact I].
    + intros; split; [reflexivity | exact I].
    + intros target updates Hk n k n' v _ _. split; [|exact I].
      unfold updated_at. cbn. cbn in Hk. now rewrite Hk.
    + intros; exact I.
    + exact Hok.
    + apply Forall_forall. intros; exact I.
  - intros Hok. eapply proj2.
    apply session_kept with (holds := fun _ _ => True)
                            (ok := keeps_usageCount).
    + intros v. lia.
    + intros a b c Hab Hbc. lia.
    + intros; exact I.
    + intros n k n' v _ _. split; [|exact I]. cbn.
      apply Number_plus_one_bounds.
    + intros newName n k n' v _ _. split; [cbn; lia | exact I].
    + intros target updates Hk n k n' v _ _. split; [|exact I].
      unfold updated_at. cbn. cbn in Hk. rewrite Hk. cbn. lia.
    + intros; exact I.
    + exact Hok.
    + apply Forall_forall. intros; exact I.
  - intros Hclock Hok Hstart. apply and_comm.
    apply session_kept
      with (holds := fun n v => lastUsed v <= Date_now env n)
           (ok := keeps_lastUsed).
    + intros v. lia.
    + intros a b c Hab Hbc. lia.
    + intros n n' v Hn Hv. pose proof (Hclock n n' Hn). lia.
    + intros n k n' v Hk Hv. cbn.
      pose proof (Hclock n k ltac:(lia)). pose proof (Hclock k n' ltac:(lia)).
      lia.
    + intros newName n k n' v Hk Hv. cbn.
      pose proof (Hclock n n' ltac:(lia)). lia.
    + intros target updates Hk n k n' v Hnk Hv.
      unfold updated_at. cbn. cbn in Hk. rewrite Hk. cbn.
      pose proof (Hclock n n' ltac:(lia)). lia.
    + intros input new_id n. cbn. apply Hclock. lia.
    + exact Hok.
    + exact Hstart.
  - intros Hclock Hok Hstart. eapply proj1.
    apply session_kept
      with (R := fun _ _ => True)
           (holds := fun n v => createdAt v <= updatedAt v /\
                                createdAt v <= Date_now env n)
           (ok := keeps_createdAt).
    + intros; exact I.
    + intros; exact I.
    + intros n n' v Hn [H1 H2]. pose proof (Hclock n n' Hn). lia.
    + intros n k n' v Hk [H1 H2]. cbn.
      pose proof (Hclock n n' ltac:(lia)). split; [exact I | lia].
    + intros newName n k n' v Hk [H1 H2]. cbn.
      pose proof (Hclock n k ltac:(lia)). pose proof (Hclock k n' ltac:(lia)).
      split; [exact I | lia].
    + intros target updates Hk n k n' v Hnk [H1 H2].
      unfold updated_at. cbn. cbn in Hk. rewrite Hk. cbn.
      pose proof (Hclock n k ltac:(lia)). pose proof (Hclock k n' ltac:(lia)).
      split; [exact I | lia].
    + intros input new_id n. cbn.
      pose proof (Hclock n (S n) ltac:(lia)).
      pose proof (Hclock n (S (S (S n))) ltac:(lia)). lia.
    + exact Hok.
    + exact Hstart.
Qed.

(** ** More of the store: names, the active view, sizes *)

Lemma nameExists_run (n : string) (excludeId : option string) (w : World) :
  browser env = true ->
  nameExists n excludeId w =
  (Resolved
     (existsb
        (fun v => String.eqb (name v) n
                  && negb (match excludeId with
                           | Some x => String.eqb (id v) x
                           | None => false
                           end))
        (savedViews w)), w).
Proof. intros Hb. run_action. now rewrite Hb. Qed.

Lemma stamped_ids (target : string) (stamp : Z -> SavedView -> SavedView)
  (views : list SavedView) (n : nat) :
  (forall t v, id (stamp t v) = id v) ->
  map id (stamped target stamp n views) = map id views.
Proof.
  intros Hid. revert n. induction views as [|v vs IH]; intros n;
    [reflexivity|].
  cbn [stamped]. destruct (String.eqb (id v) target); cbn [map];
    now rewrite ?Hid, IH.
Qed.

Lemma present_ids (a : string) (views : list SavedView) :
  present a views <-> In a (map id views).
Proof.
  unfold present. rewrite in_map_iff. split; intros (v & H1 & H2);
    exists v; tauto.
Qed.

Lemma stamped_present (target a : string)
  (stamp : Z -> SavedView -> SavedView) (views : list SavedView) (n : nat) :
  (forall t v, id (stamp t v) = id v) ->
  present a (stamped target stamp n views) <-> present a views.
Proof. intros Hid. now rewrite !present_ids, stamped_ids. Qed.

Lemma stamped_length (target : string) (stamp : Z -> SavedView -> SavedView)
  (views : list SavedView) (n : nat) :
  List.length (stamped target stamp n views) = List.length views.
Proof.
  revert n. induction views as [|v vs IH]; intros n; [reflexivity|].
  cbn [stamped]. destruct (String.eqb (id v) target); cbn [List.length];
    now rewrite IH.
Qed.

Lemma matches_absent (target : string) (views : list SavedView) :
  find_view target views = None -> matches target views = 0%nat.
Proof.
  unfold find_view, matches. induction views as [|v vs IH]; [reflexivity|].
  cbn [find filter]. destruct (String.eqb (id v) target); [discriminate|].
  exact IH.
Qed.

Lemma kept_length (target : string) (views : list SavedView) :
  List.length (filter (fun v => negb (String.eqb (id v) target)) views) =
  (List.length views - matches target views)%nat.
Proof.
  unfold matches. induction views as [|v vs IH]; [reflexivity|].
  cbn [filter]. destruct (String.eqb (id v) target); cbn [negb List.length].
  - rewrite IH. reflexivity.
  - rewrite IH.
    assert (List.length (filter (fun v0 => String.eqb (id v0) target) vs)
            <= List.length vs)%nat by apply filter_length_le.
    lia.
Qed.

Lemma delete_found_views (target : string) (w : World) (v : SavedView) :
  browser env = true ->
  find_view target (savedViews w) = Some v ->
  savedViews (world_after (delete target w)) =
    filter (fun v' => negb (String.eqb (id v') target)) (savedViews w) /\
  activeViewId (world_after (delete target w)) =
    (match activeViewId w with
     | Some a => if String.eqb a target then None else Some a
     | None => None
     end) /\
  activeViewModified (world_after (delete target w)) =
    (match activeViewId w with
     | Some a => if String.eqb a target then false else activeViewModified w
     | None => activeViewModified w
     end).
Proof.
  intros Hb Hf. rewrite (delete_found _ _ _ Hb Hf). cbn [world_after snd].
  destruct (activeViewId w) as [a|] eqn:Ea;
    [destruct (String.eqb a target)|]; cbn; rewrite ?Ea; repeat split.
Qed.

(** A name that has just been saved is found by [nameExists]. *)
Theorem save_then_nameExists (input : SavedViewInput) (w : World) :
  browser env = true ->
  result (nameExists (in_name input) None (world_after (save input w))) =
  Resolved true.
Proof.
  intros Hb. rewrite (save_run _ _ Hb). cbn [world_after snd].
  rewrite (nameExists_run _ _ _ Hb). cbn [result fst savedViews].
  f_equal. rewrite existsb_app. cbn. rewrite String.eqb_refl.
  cbn. apply orb_true_r.
Qed.

Lemma existsb_stamped_excluded (target n : string)
  (stamp : Z -> SavedView -> SavedView) (views : list SavedView) (k : nat) :
  (forall t v, id (stamp t v) = id v) ->
  existsb (fun v => String.eqb (name v) n && negb (String.eqb (id v) target))
    (stamped target stamp k views) =
  existsb (fun v => String.eqb (name v) n && negb (String.eqb (id v) target))
    views.
Proof.
  intros Hid. revert k. induction views as [|v vs IH]; intros k;
    [reflexivity|].
  cbn [stamped]. destruct (String.eqb (id v) target) eqn:E; cbn [existsb].
  - rewrite Hid, E, IH. cbn. now rewrite !andb_false_r.
  - now rewrite IH.
Qed.

(** After [rename] of a present id the new name exists, and asking with the
    renamed id excluded gives what it gave before: the renamed views do not
    count against themselves. *)
Theorem rename_then_nameExists (target newName : string) (w : World) :
  browser env = true ->
  present target (savedViews w) ->
  let w' := world_after (rename target newName w) in
  result (nameExists newName None w') = Resolved true /\
  result (nameExists newName (Some target) w') =
  result (nameExists newName (Some target) w).
Proof.
  intros Hb Hp w'. subst w'.
  apply find_view_present in Hp. destruct Hp as (v & Hf).
  rewrite (rename_found _ _ _ _ Hb Hf). cbn [world_after snd].
  rewrite !(nameExists_run _ _ _ Hb). cbn [result fst savedViews]. split.
  - f_equal. apply existsb_exists.
    exists (renamed_at newName (Date_now env (clock_reads w)) v). split.
    + pose proof (stamped_find target (renamed_at newName) (savedViews w)
                    (clock_reads w) (fun _ _ => eq_refl)) as Hs.
      rewrite Hf in Hs. cbn [option_map] in Hs.
      apply find_view_id in Hs. tauto.
    + cbn. now rewrite String.eqb_refl.
  - f_equal. now apply existsb_stamped_excluded.
Qed.

(** Of all the calls only [markModified] raises the modified flag. *)
Theorem only_markModified_raises_flag (c : Command) (w : World) :
  activeViewModified (perform c w) = true ->
  c = CMarkModified \/ activeViewModified w = true.
Proof.
  destruct (browser env) eqn:Hb.
  - destruct c as [input|target|target updates|target|target newName| |];
      cbn [perform]; try (now left).
    + rewrite (save_run _ _ Hb). cbn. auto.
    + destruct (find_view target (savedViews w)) as [v|] eqn:Hf.
      * rewrite (load_found _ _ _ Hb Hf). cbn. discriminate.
      * rewrite (load_missing _ _ Hb Hf). cbn. auto.
    + destruct (find_view target (savedViews w)) as [v|] eqn:Hf.
      * rewrite (update_found _ _ _ _ Hb Hf). cbn. discriminate.
      * rewrite (update_missing _ _ _ Hb Hf). cbn. auto.
    + destruct (find_view target (savedViews w)) as [v|] eqn:Hf.
      * destruct (delete_found_views _ _ _ Hb Hf) as (_ & _ & ->).
        destruct (activeViewId w) as [a|]; [destruct (String.eqb a target)|];
          auto; discriminate.
      * rewrite (delete_missing _ _ Hb Hf). cbn. auto.
    + destruct (find_view target (savedViews w)) as [v|] eqn:Hf.
      * rewrite (rename_found _ _ _ _ Hb Hf). cbn. auto.
      * rewrite (rename_missing _ _ _ Hb Hf). cbn. auto.
  - destruct (server_rejects w Hb) as (Hs & Hl & Hu & Hd & Hr).
    destruct c as [input|target|target updates|target|target newName| |];
      cbn [perform]; rewrite ?Hs, ?Hl, ?Hu, ?Hd, ?Hr; try (now left);
      run_action; cbn; auto; discriminate.
Qed.

(** What each call does to the number of views: [save] adds one, [delete]
    takes away the views with the id, every other call leaves the number as
    it is; without a browser nothing changes. *)
Theorem perform_length (c : Command) (w : World) :
  List.length (savedViews (perform c w)) =
  match c with
  | CSave _ =>
      if browser env then S (List.length (savedViews w))
      else List.length (savedViews w)
  | CDelete target =>
      if browser env
      then (List.length (savedViews w) - matches target (savedViews w))%nat
      else List.length (savedViews w)
  | _ => List.length (savedViews w)
  end.
Proof.
  destruct (browser env) eqn:Hb.
  - destruct c as [input|target|target updates|target|target newName| |];
      cbn [perform]; try reflexivity.
    + rewrite (save_run _ _ Hb). cbn [world_after snd savedViews].
      rewrite length_app. cbn. lia.
    + destruct (find_view target (savedViews w)) as [v|] eqn:Hf.
      * rewrite (load_found _ _ _ Hb Hf). cbn [world_after snd savedViews].
        apply stamped_length.
      * now rewrite (load_missing _ _ Hb Hf).
    + destruct (find_view target (savedViews w)) as [v|] eqn:Hf.
      * rewrite (update_found _ _ _ _ Hb Hf).
        cbn [world_after snd savedViews]. apply stamped_length.
      * now rewrite (update_missing _ _ _ Hb Hf).
    + destruct (find_view target (savedViews w)) as [v|] eqn:Hf.
      * destruct (delete_found_views _ _ _ Hb Hf) as (-> & _ & _).
        apply kept_length.
      * rewrite (delete_missing _ _ Hb Hf), (matches_absent _ _ Hf).
        cbn. lia.
    + destruct (find_view target (savedViews w)) as [v|] eqn:Hf.
      * rewrite (rename_found _ _ _ _ Hb Hf).
        cbn [world_after snd savedViews]. apply stamped_length.
      * now rewrite (rename_missing _ _ _ Hb Hf).
  - destruct (server_rejects w Hb) as (Hs & Hl & Hu & Hd & Hr).
    destruct c as [input|target|target updates|target|target newName| |];
      cbn [perform]; rewrite ?Hs, ?Hl, ?Hu, ?Hd, ?Hr; reflexivity.
Qed.

Lemma present_after_append (a : string) (views : list SavedView)
  (v : SavedView) :
  present a views -> present a (views ++ [v]).
Proof.
  intros (u & Hin & Hid). exists u. split; [|exact Hid].
  apply in_or_app. now left.
Qed.

Lemma present_after_filter (a target : string) (views : list SavedView) :
  a <> target ->
  present a views ->
  present a (filter (fun v => negb (String.eqb (id v) target)) views).
Proof.
  intros Hne (u & Hin & Hid). exists u. split; [|exact Hid].
  apply filter_In. split; [exact Hin|]. rewrite Hid.
  destruct (String.eqb_spec a target); [contradiction | reflexivity].
Qed.

Lemma perform_active_resolves (c : Command) (w : World) :
  keeps_id c -> active_resolves w -> active_resolves (perform c w).
Proof.
  unfold active_resolves. intros Hk Hw.
  destruct c as [input|target|target updates|target|target newName| |];
    cbn [perform].
  - destruct (browser env) eqn:Hb.
    + rewrite (save_run _ _ Hb). cbn [world_after snd savedViews activeViewId].
      intros a Ha. apply present_after_append. now apply Hw.
    + destruct (server_rejects w Hb) as (Hs & _). now rewrite Hs.
  - destruct (browser env) eqn:Hb.
    + destruct (find_view target (savedViews w)) as [v|] eqn:Hf.
      * rewrite (load_found _ _ _ Hb Hf).
        cbn [world_after snd savedViews activeViewId].
        intros a Ha. injection Ha as <-.
        apply stamped_present; [reflexivity|].
        apply find_view_present. now exists v.
      * now rewrite (load_missing _ _ Hb Hf).
    + destruct (server_rejects w Hb) as (_ & Hl & _). now rewrite Hl.
  - destruct (browser env) eqn:Hb.
    + destruct (find_view target (savedViews w)) as [v|] eqn:Hf.
      * rewrite (update_found _ _ _ _ Hb Hf).
        cbn [world_after snd savedViews activeViewId].
        intros a Ha. apply stamped_present; [|now apply Hw].
        intros t u. unfold updated_at. cbn. cbn in Hk. now rewrite Hk.
      * now rewrite (update_missing _ _ _ Hb Hf).
    + destruct (server_rejects w Hb) as (_ & _ & Hu & _). now rewrite Hu.
  - destruct (browser env) eqn:Hb.
    + destruct (find_view target (savedViews w)) as [v|] eqn:Hf.
      * destruct (delete_found_views _ _ _ Hb Hf) as (-> & -> & _).
        intros a Ha. destruct (activeViewId w) as [b|] eqn:Eb;
          [|discriminate].
        destruct (String.eqb_spec b target) as [Heq|Hne]; [discriminate|].
        injection Ha as <-. apply present_after_filter; [exact Hne|].
        now apply Hw.
      * now rewrite (delete_missing _ _ Hb Hf).
    + destruct (server_rejects w Hb) as (_ & _ & _ & Hd & _). now rewrite Hd.
  - destruct (browser env) eqn:Hb.
    + destruct (find_view target (savedViews w)) as [v|] eqn:Hf.
      * rewrite (rename_found _ _ _ _ Hb Hf).
        cbn [world_after snd savedViews activeViewId].
        intros a Ha. apply stamped_present; [reflexivity | now apply Hw].
      * now rewrite (rename_missing _ _ _ Hb Hf).
    + destruct (server_rejects w Hb) as (_ & _ & _ & _ & Hr). now rewrite Hr.
  - run_action. cbn. exact Hw.
  - run_action. cbn. discriminate.
Qed.

Lemma run_active_resolves (cs : list Command) (w : World) :
  Forall keeps_id cs -> active_resolves w -> active_resolves (run cs w).
Proof.
  revert w. induction cs as [|c cs IH]; intros w Hk Hw; [exact Hw|].
  inversion Hk as [|a l Hc Hcs]; subst.
  change (run (c :: cs) w) with (run cs (perform c w)).
  apply IH; [exact Hcs|]. now apply perform_active_resolves.
Qed.

(** The active view never dangles: from a world whose active id is the id of
    a view, and along calls whose [update] partials carry no [id], the
    derived [activeView] of a non-empty active id is a view with that id. *)
Theorem session_keeps_active_view (cs : list Command) (w : World) (a : string) :
  Forall keeps_id cs ->
  active_resolves w ->
  activeViewId (run cs w) = Some a ->
  a <> "" ->
  exists v,
    activeView (savedViews (run cs w)) (activeViewId (run cs w)) = Some v /\
    In v (savedViews (run cs w)) /\ id v = a.
Proof.
  intros Hk Hw Ha Hne.
  pose proof (run_active_resolves cs w Hk Hw a Ha) as Hp.
  apply find_view_present in Hp. destruct Hp as (v & Hf).
  exists v. rewrite Ha. unfold activeView.
  destruct (String.eqb_spec a ""); [contradiction|].
  split; [exact Hf|]. now apply find_view_id.
Qed.

(** After [load] of a present, non-empty id the derived [activeView] is the
    view just loaded, with its use counted. *)
Theorem load_then_activeView (target : string) (w : World) :
  browser env = true ->
  target <> "" ->
  present target (savedViews w) ->
  let w' := world_after (load target w) in
  exists v v',
    find_view target (savedViews w) = Some v /\
    activeView (savedViews w') (activeViewId w') = Some v' /\
    used_once (Date_now env (clock_reads w)) v v'.
Proof.
  intros Hb Hne Hp w'. subst w'.
  apply find_view_present in Hp. destruct Hp as (v & Hf).
  exists v, (used_at (Date_now env (clock_reads w)) v).
  split; [exact Hf|]. rewrite (load_found _ _ _ Hb Hf).
  cbn [world_after snd savedViews activeViewId]. unfold activeView.
  destruct (String.eqb_spec target ""); [contradiction|].
  split; [|apply used_at_once].
  pose proof (stamped_find target used_at (savedViews w) (clock_reads w)
                (fun _ _ => eq_refl)) as Hs.
  rewrite Hf in Hs. exact Hs.
Qed.

(** *** Distinct ids *)

Lemma drawn_before_ids (n : nat) (views views' : list SavedView) :
  map id views' = map id views ->
  drawn_before n views -> drawn_before n views'.
Proof.
  intros Hids H u k Hin Hid.
  assert (Hm : In (id u) (map id views)).
  { rewrite <- Hids. now apply in_map. }
  apply in_map_iff in Hm. destruct Hm as (u0 & Hi0 & Hin0).
  apply (H u0 k Hin0). congruence.
Qed.

Lemma NoDup_ids_filter (keep : SavedView -> bool) (views : list SavedView) :
  NoDup (map id views) -> NoDup (map id (filter keep views)).
Proof.
  induction views as [|v vs IH]; cbn; intros H; [constructor|].
  inversion H as [|a l Hn Hd]; subst. destruct (keep v); cbn.
  - constructor; [|now apply IH]. intros Hin. apply Hn.
    apply in_map_iff in Hin. destruct Hin as (u & Hu & Hin).
    apply filter_In in Hin. rewrite <- Hu. apply in_map. tauto.
  - now apply IH.
Qed.

Lemma perform_ids (c : Command) (w : World) :
  never_repeats -> keeps_id c ->
  drawn_before (uuid_draws w) (savedViews w) ->
  NoDup (map id (savedViews w)) ->
  drawn_before (uuid_draws (perform c w)) (savedViews (perform c w)) /\
  NoDup (map id (savedViews (perform c w))).
Proof.
  intros Hinj Hok Hd Hn.
  assert (Hstamped : forall target stamp n,
            (forall t v, id (stamp t v) = id v) ->
            drawn_before (uuid_draws w)
              (stamped target stamp n (savedViews w)) /\
            NoDup (map id (stamped target stamp n (savedViews w)))).
  { intros target stamp n Hid. split.
    - apply drawn_before_ids with (views := savedViews w); [|exact Hd].
      now apply stamped_ids.
    - now rewrite stamped_ids. }
  destruct c as [input|target|target updates|target|target newName| |];
    cbn [perform].
  - destruct (browser env) eqn:Hb.
    + rewrite (save_run _ _ Hb).
      cbn [world_after snd savedViews uuid_draws]. split.
      * intros u k Hin Hid. apply in_app_or in Hin.
        destruct Hin as [Hin|[<-|[]]].
        -- specialize (Hd u k Hin Hid). lia.
        -- cbn in Hid. apply Hinj in Hid. lia.
      * rewrite map_app. apply NoDup_app; [exact Hn | |].
        -- cbn. constructor; [intros [] | constructor].
        -- intros a Ha [<-|[]]. cbn in Ha. apply in_map_iff in Ha.
           destruct Ha as (u & Hu & Hin). specialize (Hd u _ Hin Hu). lia.
    + destruct (server_rejects w Hb) as (Hs & _). rewrite Hs. now split.
  - destruct (browser env) eqn:Hb.
    + destruct (find_view target (savedViews w)) as [v|] eqn:Hf.
      * rewrite (load_found _ _ _ Hb Hf).
        cbn [world_after snd savedViews uuid_draws]. now apply Hstamped.
      * rewrite (load_missing _ _ Hb Hf). now split.
    + destruct (server_rejects w Hb) as (_ & Hl & _). rewrite Hl. now split.
  - destruct (browser env) eqn:Hb.
    + destruct (find_view target (savedViews w)) as [v|] eqn:Hf.
      * rewrite (update_found _ _ _ _ Hb Hf).
        cbn [world_after snd savedViews uuid_draws]. apply Hstamped.
        intros t u. cbn in Hok. unfold updated_at. cbn. now rewrite Hok.
      * rewrite (update_missing _ _ _ Hb Hf). now split.
    + destruct (server_rejects w Hb) as (_ & _ & Hu & _). rewrite Hu.
      now split.
  - destruct (browser env) eqn:Hb.
    + destruct (find_view target (savedViews w)) as [v|] eqn:Hf.
      * assert (Hshape :
          savedViews (world_after (delete target w)) =
            filter (fun v' => negb (String.eqb (id v') target)) (savedViews w)
          /\ uuid_draws (world_after (delete target w)) = uuid_draws w).
        { rewrite (delete_found _ _ _ Hb Hf). cbn [world_after snd].
          destruct (activeViewId w) as [a|];
            [destruct (String.eqb a target)|]; cbn; auto. }
        destruct Hshape as (-> & ->). split.
        -- intros u k Hin. apply filter_In in Hin. apply Hd. tauto.
        -- now apply NoDup_ids_filter.
      * rewrite (delete_missing _ _ Hb Hf). now split.
    + destruct (server_rejects w Hb) as (_ & _ & _ & Hdel & _). rewrite Hdel.
      now split.
  - destruct (browser env) eqn:Hb.
    + destruct (find_view target (savedViews w)) as [v|] eqn:Hf.
      * rewrite (rename_found _ _ _ _ Hb Hf).
        cbn [world_after snd savedViews uuid_draws]. now apply Hstamped.
      * rewrite (rename_missing _ _ _ Hb Hf). now split.
    + destruct (server_rejects w Hb) as (_ & _ & _ & _ & Hr). rewrite Hr.
      now split.
  - run_action. cbn. now split.
  - run_action. cbn. now split.
Qed.

(** Under a generator that never repeats, along calls whose [update]
    partials carry no [id], from a collection of distinct ids none of which
    the generator has yet to return: the ids of the collection stay distinct,
    and none of them is a value yet to be drawn, so that every later [save]
    adds an id of its own. *)
Theorem ids_stay_distinct (cs : list Command) (w : World) :
  never_repeats -> Forall keeps_id cs ->
  drawn_before (uuid_draws w) (savedViews w) ->
  NoDup (map id (savedViews w)) ->
  drawn_before (uuid_draws (run cs w)) (savedViews (run cs w)) /\
  NoDup (map id (savedViews (run cs w))).
Proof.
  intros Hinj. revert w. induction cs as [|c cs IH]; intros w Hok Hd Hn.
  - now split.
  - inversion Hok as [|a l Hc Hcs]; subst.
    destruct (perform_ids c w Hinj Hc Hd Hn) as [Hd1 Hn1].
    change (run (c :: cs) w) with (run cs (perform c w)).
    now apply IH.
Qed.

(** ** [duplicateView] *)

Lemma append_cancel_l (s a b : string) :
  String.append s a = String.append s b -> a = b.
Proof.
  induction s as [|c s IH]; cbn; intros H; [exact H|].
  injection H as H. now apply IH.
Qed.

Lemma append_length (a b : string) :
  String.length (String.append a b) = (String.length a + String.length b)%nat.
Proof. induction a as [|c a IH]; cbn; [reflexivity | now rewrite IH]. Qed.

Lemma append_cancel_r (a b t : string) :
  String.append a t = String.append b t -> a = b.
Proof.
  revert b. induction a as [|c a IH]; intros [|d b] H.
  - reflexivity.
  - apply (f_equal String.length) in H. cbn in H.
    rewrite append_length in H. lia.
  - apply (f_equal String.length) in H. cbn in H.
    rewrite append_length in H. lia.
  - cbn in H. injection H as -> H. f_equal. now apply IH.
Qed.

Lemma js_string_of_nat_inj (a b : nat) :
  js_string_of_nat a = js_string_of_nat b -> a = b.
Proof.
  unfold js_string_of_nat. intros H.
  apply DecimalNat.Unsigned.to_uint_inj.
  pose proof (NilEmpty.usu (Nat.to_uint a)) as Ha.
  rewrite H, NilEmpty.usu in Ha. now injection Ha.
Qed.

Lemma copy_candidate_inj (base : string) (i j : nat) :
  copy_candidate base i = copy_candidate base j -> i = j.
Proof.
  unfold copy_candidate, first_copy_name, numbered_copy_name.
  destruct i as [|i], j as [|j]; intros H; [reflexivity| | |].
  - apply append_cancel_l in H. cbn in H. discriminate H.
  - apply append_cancel_l in H. cbn in H. discriminate H.
  - apply append_cancel_l in H.
    apply (append_cancel_l " (Copy ") in H.
    apply append_cancel_r in H. apply js_string_of_nat_inj in H. congruence.
Qed.

Lemma copy_candidates_NoDup (base : string) (n : nat) :
  NoDup (map (copy_candidate base) (seq 0 n)).
Proof.
  assert (H : forall l, NoDup l -> NoDup (map (copy_candidate base) l)).
  { induction 1 as [|x l Hx Hl IH]; cbn; constructor; [|exact IH].
    intros Hin. apply in_map_iff in Hin. destruct Hin as (y & Hy & Hiny).
    apply copy_candidate_inj in Hy. now subst. }
  apply H, seq_NoDup.
Qed.

Lemma name_taken_In (views : list SavedView) (n : string) :
  name_taken views n = true <-> In n (map name views).
Proof.
  unfold name_taken. rewrite existsb_exists, in_map_iff.
  split; intros (v & H1 & H2); exists v.
  - rewrite andb_true_r in H2. apply String.eqb_eq in H2. tauto.
  - rewrite andb_true_r. split; [tauto|]. apply String.eqb_eq. tauto.
Qed.

Lemma some_candidate_free (views : list SavedView) (base : string) :
  exists i, (i <= List.length views)%nat /\
            name_taken views (copy_candidate base i) = false.
Proof.
  destruct (forallb (fun i => name_taken views (copy_candidate base i))
              (seq 0 (S (List.length views)))) eqn:E.
  - exfalso. rewrite forallb_forall in E.
    assert (Hincl : incl (map (copy_candidate base)
                            (seq 0 (S (List.length views))))
                      (map name views)).
    { intros n Hn. apply in_map_iff in Hn. destruct Hn as (i & <- & Hi).
      apply name_taken_In. now apply E. }
    apply NoDup_incl_length in Hincl; [|apply copy_candidates_NoDup].
    rewrite !length_map, length_seq in Hincl. lia.
  - assert (H : forall l, forallb (fun i => name_taken views
                                     (copy_candidate base i)) l = false ->
                          exists i, In i l /\
                            name_taken views (copy_candidate base i) = false).
    { induction l as [|x l IH]; cbn; [discriminate|].
      destruct (name_taken views (copy_candidate base x)) eqn:Ex; cbn.
      - intros Hl. destruct (IH Hl) as (i & Hi & Hfree). exists i. tauto.
      - intros _. exists x. tauto. }
    destruct (H _ E) as (i & Hi & Hfree). exists i.
    apply in_seq in Hi. split; [lia | exact Hfree].
Qed.

Lemma least_false (p : nat -> bool) (n : nat) :
  p n = false ->
  exists d, (d <= n)%nat /\ p d = false /\
            forall i, (i < d)%nat -> p i = true.
Proof.
  revert p. induction n as [|n IH]; intros p Hn.
  - exists 0%nat. split; [lia|]. split; [exact Hn|]. intros i Hi. lia.
  - destruct (p 0%nat) eqn:E0.
    + destruct (IH (fun i => p (S i)) Hn) as (d & Hd & Hfree & Hbelow).
      exists (S d). split; [lia|]. split; [exact Hfree|].
      intros [|i] Hi; [exact E0 | apply Hbelow; lia].
    + exists 0%nat. split; [lia|]. split; [exact E0|]. intros i Hi. lia.
Qed.

Lemma first_candidate_free (views : list SavedView) (base : string) :
  exists d, (d <= List.length views)%nat /\
            name_taken views (copy_candidate base d) = false /\
            forall i, (i < d)%nat ->
                      name_taken views (copy_candidate base i) = true.
Proof.
  destruct (some_candidate_free views base) as (n & Hn & Hfree).
  destruct (least_false (fun i => name_taken views (copy_candidate base i))
              n Hfree) as (d & Hd & H1 & H2).
  exists d. split; [lia|]. split; assumption.
Qed.

Lemma free_copy_name_run (d : nat) (fuel j : nat) (base : string) (w : World) :
  browser env = true ->
  (d < fuel)%nat ->
  name_taken (savedViews w) (copy_candidate base (j + d)) = false ->
  (forall i, (i < d)%nat ->
             name_taken (savedViews w) (copy_candidate base (j + i)) = true) ->
  free_copy_name fuel base (copy_candidate base j) (j + 2) w =
  (Resolved (Some (copy_candidate base (j + d))), w).
Proof.
  intros Hb. revert fuel j.
  induction d as [|d IH]; intros fuel j Hfuel Hfree Htaken;
    (destruct fuel as [|fuel]; [lia|]); cbn [free_copy_name];
    unfold bind at 1; rewrite (nameExists_run _ _ _ Hb);
    fold (name_taken (savedViews w) (copy_candidate base j)).
  - rewrite Nat.add_0_r in Hfree. rewrite Hfree, Nat.add_0_r. reflexivity.
  - pose proof (Htaken 0%nat ltac:(lia)) as Ht0. rewrite Nat.add_0_r in Ht0.
    rewrite Ht0.
    replace (numbered_copy_name base (j + 2)) with (copy_candidate base (S j))
      by (unfold copy_candidate; f_equal; lia).
    change (S (j + 2)) with (S j + 2)%nat.
    rewrite (IH fuel (S j)).
    + f_equal. f_equal. f_equal. f_equal. lia.
    + lia.
    + now replace (S j + d)%nat with (j + S d)%nat by lia.
    + intros i Hi. replace (S j + i)%nat with (j + S i)%nat by lia.
      apply Htaken. lia.
Qed.

(** [duplicateView] ends: in a browser, with more fuel than there are views,
    the loop finds a name and the copy is saved.  The copy bears a name no
    existing view bears, one of the candidate names, and carries the
    description, the config and the original query of the view it copies. *)
Theorem duplicateView_fresh_name (fuel : nat) (view : SavedView) (w : World) :
  browser env = true ->
  (List.length (savedViews w) < fuel)%nat ->
  exists v,
    result (duplicateView fuel view w) = Resolved (Some []) /\
    savedViews (world_after (duplicateView fuel view w)) = savedViews w ++ [v]
    /\
    (forall u, In u (savedViews w) -> name u <> name v) /\
    (exists j, name v = copy_candidate (name view) j) /\
    description v = description view /\
    config v = config view /\
    originalQuery v = originalQuery view /\
    usageCount v = 0.
Proof.
  intros Hb Hfuel.
  destruct (first_candidate_free (savedViews w) (name view))
    as (d & Hd & Hfree & Htaken).
  pose proof (free_copy_name_run d fuel 0 (name view) w Hb ltac:(lia)
                Hfree Htaken) as Hrun.
  cbn [Nat.add] in Hrun.
  unfold duplicateView, try_catch, bind.
  change (first_copy_name (name view)) with (copy_candidate (name view) 0).
  rewrite Hrun. cbn beta iota.
  rewrite (save_run _ _ Hb). cbn beta iota zeta.
  unfold ret. cbn [result world_after fst snd savedViews].
  eexists. split; [reflexivity|]. split; [reflexivity|].
  cbn [name description config originalQuery usageCount].
  split; [|split; [now exists d | repeat split]].
  intros u Hu Heq. cbn in Heq.
  assert (Hin : In (copy_candidate (name view) d) (map name (savedViews w))).
  { rewrite <- Heq. now apply in_map. }
  apply name_taken_In in Hin. congruence.
Qed.

(** ** Inline rename and the save dialog *)


Lemma truthy_nonempty (s0 : string) : truthy s0 = true <-> s0 <> "".
Proof.
  unfold truthy. destruct (String.eqb_spec s0 ""); cbn; split;
    congruence.
Qed.



Lemma nameExists_taken (n : string) (w : World) :
  nameExists n None w =
  (Resolved (if browser env then name_taken (savedViews w) n else false), w).
Proof. run_action. destruct (browser env); reflexivity. Qed.

Lemma getStorageStats_count (w : World) :
  exists st,
    getStorageStats w = (Resolved st, w) /\
    limit st = 50 /\
    count st =
      (if browser env then Z.of_nat (List.length (savedViews w)) else 0).
Proof.
  run_action. destruct (browser env); eexists; repeat split.
Qed.



(** With a browser, a name that is not blank, not longer than 100 and not
    taken, and fewer than 50 views, the dialog saves: one view is appended,
    named by the trimmed text and carrying the dialog's config and query, the
    save event bears its id and name, and the dialog closes without error. *)
Theorem handleSave_saves_valid_input (m : SaveViewModal) (w : World) :
  browser env = true ->
  String_trim host (modal_name m) <> "" ->
  (String.length (modal_name m) <= 100)%nat ->
  (forall u, In u (savedViews w) ->
             name u <> String_trim host (modal_name m)) ->
  (List.length (savedViews w) < 50)%nat ->
  exists v,
    result (handleSave m w) =
      Resolved (closed_after_save m, [save_event (id v) (name v)]) /\
    savedViews (world_after (handleSave m w)) = savedViews w ++ [v] /\
    name v = String_trim host (modal_name m) /\
    description v = description_or_undefined (modal_description m) /\
    config v = modal_config m /\
    originalQuery v = modal_originalQuery m.
Proof.
  intros Hb Ht Hlen Hfree Hroom.
  remember (handleSave m w) as r eqn:Hr. unfold handleSave in Hr.
  apply truthy_nonempty in Ht. rewrite Ht in Hr. cbn [negb] in Hr.
  destruct (Nat.ltb_spec 100 (String.length (modal_name m))) as [Hlong|_];
    [lia|].
  unfold bind at 1 in Hr. rewrite nameExists_taken, Hb in Hr.
  assert (Hn : name_taken (savedViews w) (String_trim host (modal_name m))
               = false).
  { destruct (name_taken (savedViews w) (String_trim host (modal_name m)))
      eqn:E; [|reflexivity].
    apply name_taken_In in E. apply in_map_iff in E.
    destruct E as (u & Hu & Hin). now apply Hfree in Hin. }
  rewrite Hn in Hr. unfold bind at 1 in Hr.
  destruct (getStorageStats_count w) as (st & Hst & Hl & Hc).
  rewrite Hst, Hl, Hc, Hb in Hr.
  destruct (Z.geb_spec (Z.of_nat (List.length (savedViews w))) 50)
    as [Hfull|_]; [lia|].
  unfold try_catch, bind in Hr. rewrite (save_run _ _ Hb) in Hr.
  cbn zeta beta iota in Hr. unfold ret in Hr. subst r.
  cbn [result world_after fst snd]. eexists.
  split; [reflexivity|]. repeat split.
Qed.

(** ** The demonstration page *)

Lemma filter_keeps_all (A : Type) (p : A -> bool) (l : list A) :
  Forall (fun x => p x = true) l -> filter p l = l.
Proof.
  induction 1 as [|x l Hx _ IH]; [reflexivity|]. cbn. now rewrite Hx, IH.
Qed.

Lemma includes_column_In (col : string) (cols : list string) :
  includes_column col cols = true <-> In col cols.
Proof.
  unfold includes_column. rewrite existsb_exists. split.
  - intros (c & Hin & Heq). apply String.eqb_eq in Heq. now subst.
  - intros Hin. exists col. split; [exact Hin | apply String.eqb_refl].
Qed.

Lemma valid_columns_or_all (cols : list string) :
  let valid := filter (fun col => includes_column col availableColumns) cols in
  let chosen :=
    if (0 <? List.length valid)%nat then valid else availableColumns in
  chosen <> [] /\ Forall (fun c => In c availableColumns) chosen.
Proof.
  intros valid chosen. subst chosen.
  destruct (Nat.ltb_spec 0 (List.length valid)) as [Hpos|Hzero].
  - split; [destruct valid; [cbn in Hpos; lia | discriminate]|].
    apply Forall_forall. intros c Hc. subst valid. apply filter_In in Hc.
    apply includes_column_In. tauto.
  - split; [discriminate|]. apply Forall_forall. auto.
Qed.

Lemma valid_columns_kept (cols : list string) :
  let valid := filter (fun col => includes_column col availableColumns) cols in
  let chosen :=
    if (0 <? List.length valid)%nat then valid else availableColumns in
  ((exists c, In c cols /\ In c availableColumns) ->
   chosen = valid /\
   (forall c, In c chosen <-> In c cols /\ In c availableColumns)) /\
  ((forall c, In c cols -> ~ In c availableColumns) ->
   chosen = availableColumns).
Proof.
  intros valid chosen.
  assert (Hvalid : forall c, In c valid <-> In c cols /\ In c availableColumns).
  { intros c. subst valid. rewrite filter_In, includes_column_In. tauto. }
  subst chosen. split.
  - intros (c & Hc & Ha).
    destruct (Nat.ltb_spec 0 (List.length valid)) as [Hpos|Hzero].
    + split; [reflexivity | exact Hvalid].
    + assert (Hin : In c valid) by (apply Hvalid; tauto).
      destruct valid; [destruct Hin | cbn in Hzero; lia].
  - intros Hnone.
    destruct (Nat.ltb_spec 0 (List.length valid)) as [Hpos|Hzero];
      [|reflexivity].
    destruct valid as [|c l] eqn:Hv; [cbn in Hpos; lia|].
    assert (Hin : In c (c :: l)) by now left.
    apply Hvalid in Hin. destruct Hin as [Hc Ha]. now apply Hnone in Hc.
Qed.

(** Whatever view is selected, the table takes the filters and the sort of
    the view, and for its column list and its column order alike:
    - when the view names at least one column the page has, the table shows
      the columns of the view that the page has, all of them, in the order
      and as often as the view names them, and no other;
    - when the view names no column the page has, the table shows all the
      columns of the page;
    - either way it ends up with at least one column, and with columns of
      the page only. *)
Theorem handleViewSelected_columns_valid (view : SavedView) (t : DemoTable) :
  let t' := handleViewSelected view t in
  let known := fun col => includes_column col availableColumns in
  demo_columns t' <> [] /\
  Forall (fun c => In c availableColumns) (demo_columns t') /\
  demo_columnOrder t' <> [] /\
  Forall (fun c => In c availableColumns) (demo_columnOrder t') /\
  demo_filters t' = filters (config view) /\
  demo_sort t' = sort (config view) /\
  ((exists c, In c (columns (config view)) /\ In c availableColumns) ->
   demo_columns t' = filter known (columns (config view)) /\
   (forall c, In c (demo_columns t') <->
              In c (columns (config view)) /\ In c availableColumns)) /\
  ((forall c, In c (columns (config view)) -> ~ In c availableColumns) ->
   demo_columns t' = availableColumns) /\
  ((exists c, In c (columnOrder (config view)) /\ In c availableColumns) ->
   demo_columnOrder t' = filter known (columnOrder (config view)) /\
   (forall c, In c (demo_columnOrder t') <->
              In c (columnOrder (config view)) /\ In c availableColumns)) /\
  ((forall c, In c (columnOrder (config view)) -> ~ In c availableColumns) ->
   demo_columnOrder t' = availableColumns).
Proof.
  intros t' known. subst t' known. unfold handleViewSelected.
  cbn [demo_columns demo_columnOrder demo_filters demo_sort].
  destruct (valid_columns_or_all (columns (config view))) as [H1 H2].
  destruct (valid_columns_or_all (columnOrder (config view))) as [H3 H4].
  destruct (valid_columns_kept (columns (config view))) as [H5 H6].
  destruct (valid_columns_kept (columnOrder (config view))) as [H7 H8].
  repeat (split; [assumption || reflexivity|]). assumption.
Qed.

(** Updating the active view from the table and selecting it again restores
    the table: filters, sort, columns and column order come back as they
    were, when the table shows known columns and at least one. *)
Theorem update_then_select_restores (t t0 : DemoTable) (a : string)
  (w : World) :
  browser env = true ->
  activeViewId w = Some a ->
  a <> "" ->
  present a (savedViews w) ->
  demo_columns t <> [] ->
  Forall (fun c => In c availableColumns) (demo_columns t) ->
  demo_columnOrder t <> [] ->
  Forall (fun c => In c availableColumns) (demo_columnOrder t) ->
  result (handleUpdateView t w) = Resolved [] /\
  exists v,
    find_view a (savedViews (world_after (handleUpdateView t w))) = Some v /\
    config v = captureCurrentConfig t /\
    handleViewSelected v t0 = t.
Proof.
  intros Hb Ha Hne Hp Hc1 Hc2 Ho1 Ho2.
  apply find_view_present in Hp. destruct Hp as (v & Hf).
  unfold handleUpdateView, bind, get_activeViewId. cbn beta iota.
  rewrite Ha. apply truthy_nonempty in Hne. rewrite Hne.
  unfold try_catch, bind. rewrite (update_found _ _ _ _ Hb Hf).
  cbn beta iota. unfold ret. cbn [result world_after fst snd savedViews].
  split; [reflexivity|].
  exists (updated_at (config_only (captureCurrentConfig t))
            (Date_now env (clock_reads w)) v).
  split.
  - rewrite stamped_find by reflexivity. now rewrite Hf.
  - split; [reflexivity|].
    unfold handleViewSelected, updated_at. cbn.
    rewrite !filter_keeps_all.
    + destruct t as [f s0 c o]. cbn in *.
      destruct c; [contradiction|]. destruct o; [contradiction|].
      reflexivity.
    + revert Ho2. apply Forall_impl. intros c. apply includes_column_In.
    + revert Hc2. apply Forall_impl. intros c. apply includes_column_In.
Qed.

Lemma next_sort_cycle (target : string) (s0 : option SortConfig) :
  (s0 = None \/
   exists d, s0 = Some {| sort_columnId := target; direction := d |}) ->
  next_sort target (next_sort target (next_sort target s0)) = s0.
Proof.
  intros [-> | ([|] & ->)]; cbn; rewrite ?String.eqb_refl; cbn;
    rewrite ?String.eqb_refl; reflexivity.
Qed.

(** Clicking the same column header three times brings the sort back to
    where it was (none, ascending, descending in turn) when the table was
    unsorted or sorted on that column; the clicks mark the active view
    modified and leave the saved views alone. *)
Theorem toggleSort_cycles (target : string) (t : DemoTable) (w : World) :
  (demo_sort t = None \/
   exists d, demo_sort t =
             Some {| sort_columnId := target; direction := d |}) ->
  (t1 <- toggleSort target t ;;
   t2 <- toggleSort target t1 ;;
   toggleSort target t2) w =
  (Resolved t, set_activeViewModified true w).
Proof.
  intros Hs. unfold toggleSort, markModified, activeViewModified_set, bind,
    ret. cbn beta iota. f_equal. f_equal.
  unfold with_sort. cbn [demo_filters demo_sort demo_columns demo_columnOrder].
  rewrite (next_sort_cycle target (demo_sort t) Hs). destruct t; reflexivity.
Qed.

(** ** [formatDate] *)

Lemma nearest_double_exact (z : Z) :
  Z.abs z <= 2 ^ 53 -> nearest_double z = z.
Proof.
  intros H. unfold nearest_double.
  destruct (Z.leb_spec (Z.abs z) (2 ^ 53)); [reflexivity | lia].
Qed.

Lemma nearest_double_near (z : Z) :
  z - 1 <= nearest_double z <= z + 1.
Proof.
  unfold nearest_double. destruct (Z.abs z <=? 2 ^ 53); [lia|].
  destruct (Z.even z); [lia|]. destruct ((z + 1) mod 4 =? 0); lia.
Qed.

Lemma TimeClip_valid (t : Z) :
  Z.abs t <= 8640000000000000 -> TimeClip t = Some t.
Proof.
  intros H. unfold TimeClip.
  destruct (Z.leb_spec (Z.abs t) 8640000000000000); [reflexivity | lia].
Qed.

(** How old a timestamp reads, [now] being a time value.  A timestamp
    beyond 8.64e15 milliseconds of the epoch reads Invalid Date.  Any other
    reads by its age: under a day, Today; under two, Yesterday; under seven,
    the whole days (2 to 6); under thirty, the whole weeks (1 to 4); from
    thirty days on, the date in the locale.  A timestamp ahead of the clock
    reads as a negative number of days, the whole days of the age when that
    is a safe integer. *)
Theorem formatDate_ranges (now timestamp : Z) :
  let age := now - timestamp in
  let day := 86400000 in
  (8640000000000000 < Z.abs timestamp ->
   formatDate host now timestamp = "Invalid Date") /\
  (Z.abs now <= 8640000000000000 ->
   Z.abs timestamp <= 8640000000000000 ->
   (0 <= age < day -> formatDate host now timestamp = "Today") /\
   (day <= age < 2 * day -> formatDate host now timestamp = "Yesterday") /\
   (2 * day <= age < 7 * day ->
    2 <= age / day <= 6 /\
    formatDate host now timestamp =
      String.append (js_string_of_Z (age / day)) " days ago") /\
   (7 * day <= age < 30 * day ->
    1 <= age / day / 7 <= 4 /\
    formatDate host now timestamp =
      String.append (js_string_of_Z (age / day / 7)) " weeks ago") /\
   (30 * day <= age ->
    formatDate host now timestamp = Date_toLocaleDateString host timestamp) /\
   (age < 0 ->
    Number_minus now timestamp / day < 0 /\
    formatDate host now timestamp =
      String.append (js_string_of_Z (Number_minus now timestamp / day))
        " days ago" /\
    (- 2 ^ 53 <= age -> Number_minus now timestamp / day = age / day))).
Proof.
  intros age day. split.
  - intros Hfar. unfold formatDate, TimeClip.
    destruct (Z.leb_spec (Z.abs timestamp) 8640000000000000);
      [lia | reflexivity].
  - intros Hnow Hstamp. unfold formatDate.
    rewrite (TimeClip_valid timestamp Hstamp). cbn zeta.
    change (1000 * 60 * 60 * 24) with day. unfold Number_minus. fold age.
    pose proof (nearest_double_near age) as Hnear.
    assert (Hexact : Z.abs age <= 2 ^ 53 -> nearest_double age = age)
      by apply nearest_double_exact.
    set (d := nearest_double age) in *.
    pose proof (Z.div_mod d day ltac:(discriminate)) as Hdm.
    pose proof (Z.mod_pos_bound d day ltac:(reflexivity)) as Hr.
    pose proof (Z.div_mod age day ltac:(discriminate)) as Hdma.
    pose proof (Z.mod_pos_bound age day ltac:(reflexivity)) as Hra.
    set (q := d / day) in *.
    pose proof (Z.div_mod q 7 ltac:(discriminate)) as Hdm7.
    pose proof (Z.mod_pos_bound q 7 ltac:(reflexivity)) as Hr7.
    set (k := q / 7) in *.
    assert (Hsmall : Z.abs age <= 2 ^ 53 -> age / day = q).
    { intros Ha. subst q. now rewrite (Hexact Ha). }
    subst day.
    split; [|split; [|split; [|split; [|split]]]]; intros Hage.
    + rewrite <- (Hsmall ltac:(lia)) in *.
      destruct (Z.eqb_spec (age / 86400000) 0); [reflexivity | lia].
    + rewrite <- (Hsmall ltac:(lia)) in *.
      destruct (Z.eqb_spec (age / 86400000) 0); [lia|].
      destruct (Z.eqb_spec (age / 86400000) 1); [reflexivity | lia].
    + rewrite (Hsmall ltac:(lia)) in *. split; [lia|].
      destruct (Z.eqb_spec q 0); [lia|].
      destruct (Z.eqb_spec q 1); [lia|].
      destruct (Z.ltb_spec q 7); [reflexivity | lia].
    + rewrite (Hsmall ltac:(lia)) in *. fold k. split; [lia|].
      destruct (Z.eqb_spec q 0); [lia|].
      destruct (Z.eqb_spec q 1); [lia|].
      destruct (Z.ltb_spec q 7); [lia|].
      destruct (Z.ltb_spec q 30); [reflexivity | lia].
    + assert (Hd : 30 * 86400000 <= d).
      { destruct (Z.le_gt_cases (Z.abs age) (2 ^ 53)) as [Ha|Ha];
          [rewrite (Hexact Ha) | ]; lia. }
      destruct (Z.eqb_spec q 0); [lia|].
      destruct (Z.eqb_spec q 1); [lia|].
      destruct (Z.ltb_spec q 7); [lia|].
      destruct (Z.ltb_spec q 30); [lia | reflexivity].
    + assert (Hd : d < 0).
      { destruct (Z.le_gt_cases (Z.abs age) (2 ^ 53)) as [Ha|Ha];
          [rewrite (Hexact Ha) | ]; lia. }
      split; [lia|]. split.
      * destruct (Z.eqb_spec q 0); [lia|].
        destruct (Z.eqb_spec q 1); [lia|].
        destruct (Z.ltb_spec q 7); [reflexivity | lia].
      * intros Hlo. symmetry. apply Hsmall. lia.
Qed.

End Store.

(** ** [recentViews] *)

Lemma firstn_member (A : Type) (n : nat) (l : list A) (x : A) :
  In x (firstn n l) -> In x l.
Proof.
  intros H. rewrite <- (firstn_skipn n l). apply in_or_app. now left.
Qed.

Section Sorting.

Variable A : Type.
Variable compareFn : A -> A -> Z.

Lemma sort_insert_In (a x : A) (l : list A) :
  In x (sort_insert compareFn a l) <-> x = a \/ In x l.
Proof.
  induction l as [|y l IH]; cbn.
  - intuition.
  - destruct (compareFn a y <=? 0); cbn; [intuition|].
    rewrite IH. intuition.
Qed.

Lemma Array_sort_In (x : A) (l : list A) :
  In x (Array_sort compareFn l) <-> In x l.
Proof.
  unfold Array_sort. induction l as [|y l IH]; cbn; [reflexivity|].
  rewrite sort_insert_In, IH. intuition.
Qed.

Lemma Array_sort_Forall (P : A -> Prop) (l : list A) :
  Forall P l -> Forall P (Array_sort compareFn l).
Proof.
  rewrite !Forall_forall. intros H x Hx. apply H.
  now apply Array_sort_In.
Qed.

Lemma Array_sort_length (l : list A) :
  List.length (Array_sort compareFn l) = List.length l.
Proof.
  unfold Array_sort. induction l as [|y l IH]; cbn; [reflexivity|].
  rewrite <- IH. generalize (fold_right (sort_insert compareFn) [] l).
  intros s. induction s as [|z s IHs]; cbn; [reflexivity|].
  destruct (compareFn y z <=? 0); cbn; congruence.
Qed.

Lemma sort_insert_perm (a : A) (l : list A) :
  Permutation (a :: l) (sort_insert compareFn a l).
Proof.
  induction l as [|y l IH]; cbn; [reflexivity|].
  destruct (compareFn a y <=? 0); [reflexivity|].
  rewrite perm_swap. now apply perm_skip.
Qed.

Lemma Array_sort_perm (l : list A) : Permutation l (Array_sort compareFn l).
Proof.
  unfold Array_sort. induction l as [|y l IH]; cbn; [reflexivity|].
  rewrite <- sort_insert_perm. now apply perm_skip.
Qed.

(** Stability: elements the comparator does not tell apart stay in the order
    they had. *)
Lemma sort_insert_filter (p : A -> bool) (a : A) (l : list A) :
  (forall y, p a = true -> p y = true -> compareFn a y <= 0) ->
  filter p (sort_insert compareFn a l) = filter p (a :: l).
Proof.
  intros Htie. induction l as [|y l IH]; [reflexivity|].
  cbn [sort_insert]. destruct (Z.leb_spec (compareFn a y) 0) as [Hle|Hgt];
    [reflexivity|].
  cbn [filter] in *. rewrite IH.
  destruct (p a) eqn:Ea; [|reflexivity].
  destruct (p y) eqn:Ey; [|reflexivity].
  specialize (Htie y eq_refl Ey). lia.
Qed.

Lemma Array_sort_stable (p : A -> bool) (l : list A) :
  (forall x y, p x = true -> p y = true -> compareFn x y <= 0) ->
  filter p (Array_sort compareFn l) = filter p l.
Proof.
  intros Htie. unfold Array_sort. induction l as [|y l IH]; [reflexivity|].
  cbn [fold_right]. rewrite sort_insert_filter by (intros; now apply Htie).
  cbn [filter]. now rewrite IH.
Qed.

(** The order a consistent comparator induces: [a] may stand before [b]. *)
Variable before : A -> A -> Prop.
Hypothesis before_trans : forall a b c, before a b -> before b c -> before a c.
Hypothesis compare_le : forall a b, compareFn a b <= 0 -> before a b.
Hypothesis compare_gt : forall a b, 0 < compareFn a b -> before b a.

Lemma sort_insert_sorted (a : A) (l : list A) :
  StronglySorted before l -> StronglySorted before (sort_insert compareFn a l).
Proof.
  induction 1 as [|y l Hs IH Hy]; cbn.
  - constructor; constructor.
  - destruct (Z.leb_spec (compareFn a y) 0) as [Hle|Hgt].
    + constructor; [constructor; assumption|].
      constructor; [now apply compare_le|].
      apply Forall_forall. intros z Hz.
      apply before_trans with (b := y); [now apply compare_le|].
      rewrite Forall_forall in Hy. now apply Hy.
    + constructor; [exact IH|].
      apply Forall_forall. intros z Hz. apply sort_insert_In in Hz.
      destruct Hz as [->|Hz]; [now apply compare_gt|].
      rewrite Forall_forall in Hy. now apply Hy.
Qed.

Lemma Array_sort_sorted (l : list A) :
  StronglySorted before (Array_sort compareFn l).
Proof.
  unfold Array_sort. induction l as [|y l IH]; cbn.
  - constructor.
  - now apply sort_insert_sorted.
Qed.

Lemma firstn_sorted (n : nat) (l : list A) :
  StronglySorted before l -> StronglySorted before (firstn n l).
Proof.
  intros H. revert n. induction H as [|y l Hs IH Hy]; intros [|n]; cbn;
    try constructor.
  - apply IH.
  - rewrite Forall_forall in *. intros z Hz. apply Hy.
    revert Hz. apply firstn_member.
Qed.

End Sorting.

Lemma firstn_Forall (A : Type) (P : A -> Prop) (n : nat) (l : list A) :
  Forall P l -> Forall P (firstn n l).
Proof.
  rewrite !Forall_forall. intros H x Hx. apply H. revert Hx. apply firstn_member.
Qed.

(** C8: whatever the collection and the time of the query, every recent view
    was last used no more than 7 * 24 * 3600 * 1000 ms before the query, there
    are at most five of them, and they come in descending order of
    [lastUsed]. *)
Theorem recentViews_spec (now : Z) (views : list SavedView) :
  Forall (fun v => now - 7 * 24 * 3600 * 1000 <= lastUsed v)
    (recentViews now views) /\
  (List.length (recentViews now views) <= 5)%nat /\
  StronglySorted (fun a b => lastUsed b <= lastUsed a) (recentViews now views).
Proof.
  unfold recentViews, Array_slice. cbn [skipn Nat.sub].
  split; [|split].
  - apply firstn_Forall, Array_sort_Forall.
    apply Forall_forall. intros v Hv. apply filter_In in Hv.
    destruct Hv as [_ Hv]. apply Z.geb_le in Hv. lia.
  - apply firstn_le_length.
  - apply firstn_sorted, Array_sort_sorted; intros; lia.
Qed.

Lemma sorted_app_before (A : Type) (R : A -> A -> Prop) (l1 l2 : list A)
  (a b : A) :
  StronglySorted R (l1 ++ l2) -> In a l1 -> In b l2 -> R a b.
Proof.
  induction l1 as [|x l1 IH]; intros Hs Ha Hb; [destruct Ha|].
  cbn in Hs. inversion Hs as [|y l Hs' Hall]; subst.
  destruct Ha as [->|Ha]; [|now apply IH].
  rewrite Forall_forall in Hall. apply Hall. apply in_or_app. now right.
Qed.

(** The five views [recentViews] lists are the most recently used ones: a
    view of the collection used within the week is listed, or it was last
    used no later than every listed view. *)
Theorem recentViews_keeps_most_recent (now : Z) (views : list SavedView)
  (v u : SavedView) :
  In v views ->
  now - 7 * 24 * 60 * 60 * 1000 <= lastUsed v ->
  In u (recentViews now views) ->
  In v (recentViews now views) \/ lastUsed v <= lastUsed u.
Proof.
  unfold recentViews, Array_slice. cbn [skipn Nat.sub].
  set (s := Array_sort (fun a b => lastUsed b - lastUsed a)
              (filter (fun v0 => lastUsed v0 >=? now - 7 * 24 * 60 * 60 * 1000)
                 views)).
  intros Hin Hrecent Hu.
  assert (Hv : In v s).
  { apply Array_sort_In. apply filter_In. split; [exact Hin|].
    apply Z.geb_le. lia. }
  assert (Hs : StronglySorted (fun a b => lastUsed b <= lastUsed a) s).
  { apply Array_sort_sorted; intros; lia. }
  rewrite <- (firstn_skipn 5 s) in Hv, Hs.
  apply in_app_or in Hv. destruct Hv as [Hv|Hv]; [now left | right].
  exact (sorted_app_before _ _ _ _ _ _ Hs Hu Hv).
Qed.

(** When no more than five views were used within the week, [recentViews]
    lists every one of them, each once. *)
Theorem recentViews_lists_all_when_few (now : Z) (views : list SavedView) :
  (List.length (used_this_week now views) <= 5)%nat ->
  Permutation (used_this_week now views) (recentViews now views).
Proof.
  unfold recentViews, used_this_week, Array_slice. cbn [skipn Nat.sub].
  intros Hfew. rewrite firstn_all2.
  - apply Array_sort_perm.
  - now rewrite Array_sort_length.
Qed.

(** ** The keyboard of the selector *)

Section Selector.

Variable env : Env.
Variable host : Host.

Lemma load_rejected_unchanged (target msg : string) (w w1 : World) :
  load env target w = (Rejected msg, w1) -> w1 = w.
Proof.
  destruct (browser env) eqn:Hb.
  - destruct (find_view target (savedViews w)) as [v|] eqn:Hf.
    + rewrite (load_found env _ _ _ Hb Hf). discriminate.
    + rewrite (load_missing env _ _ Hb Hf). discriminate.
  - destruct (server_rejects env w Hb) as (_ & Hl & _). rewrite Hl.
    intros H. now injection H.
Qed.

Lemma filteredViews_incl (ui : ViewSelector) (views : list SavedView)
  (v : SavedView) :
  In v (filteredViews host ui views) -> In v views.
Proof.
  unfold filteredViews. destruct (truthy (searchQuery ui)); [|exact (fun H => H)].
  intros H. apply filter_In in H. tauto.
Qed.

Lemma sortedViews_incl (ui : ViewSelector) (views : list SavedView)
  (v : SavedView) :
  In v (sortedViews host ui views) -> In v views.
Proof.
  unfold sortedViews. intros H. apply Array_sort_In in H.
  now apply filteredViews_incl in H.
Qed.

(** A key press touches the store in one case only, and in that case it
    does.
    - Every press resolves.  Either it raises no signal and leaves the store
      as it is, or the key is Enter, in a browser, on a list that is open and
      not being renamed, with the highlight on one of its entries: then that
      entry, one of the stored views, is loaded and announced and the list
      is closed.
    - Enter in a browser on an open list that is not being renamed, with the
      highlight on one of its entries, does load that entry: the store is
      the one [load] of its id leaves, with that id active and the modified
      flag cleared; the entry is announced and the list closed.
    - A press on a list that is closed or being renamed changes nothing.
    - Escape on an open list that is not being renamed closes it. *)
Theorem handleKeydown_loads_only_listed (key : string) (ui : ViewSelector)
  (w : World) :
  let viewsList := sortedViews host ui (savedViews w) in
  (exists ui' signals,
     result (handleKeydown env host key ui w) = Resolved (ui', signals) /\
     ((signals = [] /\ world_after (handleKeydown env host key ui w) = w) \/
      (exists v,
         key = "Enter" /\ browser env = true /\
         selector_open ui = true /\ truthy_id (renamingId ui) = false /\
         0 <= selectedIndex ui < Z.of_nat (List.length viewsList) /\
         nth_error viewsList (Z.to_nat (selectedIndex ui)) = Some v /\
         In v (savedViews w) /\
         signals = [viewSelected v] /\ ui' = closeDropdown ui /\
         world_after (handleKeydown env host key ui w) =
           world_after (load env (id v) w)))) /\
  (browser env = true ->
   selector_open ui = true -> truthy_id (renamingId ui) = false ->
   0 <= selectedIndex ui < Z.of_nat (List.length viewsList) ->
   exists v,
     nth_error viewsList (Z.to_nat (selectedIndex ui)) = Some v /\
     In v (savedViews w) /\
     handleKeydown env host "Enter" ui w =
       (Resolved (closeDropdown ui, [viewSelected v]),
        world_after (load env (id v) w)) /\
     activeViewId (world_after (load env (id v) w)) = Some (id v) /\
     activeViewModified (world_after (load env (id v) w)) = false) /\
  (selector_open ui = false \/ truthy_id (renamingId ui) = true ->
   handleKeydown env host key ui w = (Resolved (ui, []), w)) /\
  (selector_open ui = true -> truthy_id (renamingId ui) = false ->
   handleKeydown env host "Escape" ui w =
     (Resolved (closeDropdown ui, []), w)).
Proof.
  intros viewsList.
  assert (Hlive :
    browser env = true ->
    selector_open ui = true -> truthy_id (renamingId ui) = false ->
    0 <= selectedIndex ui < Z.of_nat (List.length viewsList) ->
    exists v,
      nth_error viewsList (Z.to_nat (selectedIndex ui)) = Some v /\
      In v (savedViews w) /\
      handleKeydown env host "Enter" ui w =
        (Resolved (closeDropdown ui, [viewSelected v]),
         world_after (load env (id v) w)) /\
      activeViewId (world_after (load env (id v) w)) = Some (id v) /\
      activeViewModified (world_after (load env (id v) w)) = false).
  { intros Hb Ho Hr Hi.
    destruct (nth_error viewsList (Z.to_nat (selectedIndex ui)))
      as [v|] eqn:Hnth;
      [|apply nth_error_None in Hnth; lia].
    assert (Hin : In v (savedViews w)).
    { apply nth_error_In in Hnth. now apply sortedViews_incl in Hnth. }
    assert (Hp : present (id v) (savedViews w)) by (exists v; now split).
    apply find_view_present in Hp. destruct Hp as (v0 & Hf).
    exists v. split; [reflexivity|]. split; [exact Hin|].
    rewrite (load_found env _ _ _ Hb Hf).
    cbn [world_after snd activeViewId activeViewModified].
    split; [|split; reflexivity].
    unfold handleKeydown. rewrite Ho, Hr. cbn [negb orb].
    unfold bind at 1, get_savedViews. cbn beta iota.
    change (String.eqb "Enter" "ArrowDown") with false.
    change (String.eqb "Enter" "ArrowUp") with false.
    change (String.eqb "Enter" "Enter") with true. cbn beta iota.
    fold viewsList.
    replace ((selectedIndex ui >=? 0)
             && (selectedIndex ui <? Z.of_nat (List.length viewsList)))
      with true
      by (symmetry; apply andb_true_intro; split;
          [apply Z.geb_le | apply Z.ltb_lt]; lia).
    rewrite Hnth. unfold try_catch, selectView, bind.
    rewrite (load_found env _ _ _ Hb Hf). reflexivity. }
  split; [|split; [exact Hlive|split]].
  - unfold handleKeydown.
    destruct (selector_open ui) eqn:Hopen; cbn [negb orb];
      [|exists ui, []; split; [reflexivity | left; split; reflexivity]].
    destruct (truthy_id (renamingId ui)) eqn:Hren;
      [exists ui, []; split; [reflexivity | left; split; reflexivity]|].
    unfold bind, get_savedViews. cbn beta iota.
    destruct (String.eqb key "ArrowDown");
      [eexists _, []; split; [reflexivity | left; split; reflexivity]|].
    destruct (String.eqb key "ArrowUp");
      [eexists _, []; split; [reflexivity | left; split; reflexivity]|].
    destruct (String.eqb_spec key "Enter") as [->|_].
    + fold viewsList.
      destruct ((selectedIndex ui >=? 0)
                && (selectedIndex ui <? Z.of_nat (List.length viewsList)))
        eqn:Hrange;
        [|exists ui, []; split; [reflexivity | left; split; reflexivity]].
      apply andb_prop in Hrange. destruct Hrange as [Hge Hlt].
      apply Z.geb_le in Hge. apply Z.ltb_lt in Hlt.
      destruct (browser env) eqn:Hb.
      * destruct (Hlive eq_refl eq_refl eq_refl (conj Hge Hlt))
          as (v & Hnth & Hin & Hrun & _).
        rewrite Hnth. unfold handleKeydown in Hrun.
        rewrite Hopen, Hren in Hrun. cbn [negb orb] in Hrun.
        unfold bind at 1, get_savedViews in Hrun. cbn beta iota in Hrun.
        change (String.eqb "Enter" "ArrowDown") with false in Hrun.
        change (String.eqb "Enter" "ArrowUp") with false in Hrun.
        change (String.eqb "Enter" "Enter") with true in Hrun.
        cbn beta iota in Hrun. fold viewsList in Hrun.
        replace ((selectedIndex ui >=? 0)
                 && (selectedIndex ui <? Z.of_nat (List.length viewsList)))
          with true in Hrun
          by (symmetry; apply andb_true_intro; split;
              [apply Z.geb_le | apply Z.ltb_lt]; lia).
        rewrite Hnth in Hrun. rewrite Hrun.
        exists (closeDropdown ui), [viewSelected v]. split; [reflexivity|].
        right. exists v. repeat split; try reflexivity; try assumption.
      * destruct (nth_error viewsList (Z.to_nat (selectedIndex ui)))
          as [v|];
          [|exists ui, []; split; [reflexivity | left; split; reflexivity]].
        unfold try_catch, selectView, bind.
        destruct (server_rejects env w Hb) as (_ & Hl & _). rewrite Hl.
        exists ui, []. split; [reflexivity | left; split; reflexivity].
    + destruct (String.eqb key "Escape");
        eexists _, []; (split; [reflexivity | left; split; reflexivity]).
  - intros [Hc|Hr]; unfold handleKeydown; rewrite Hc || rewrite Hr;
      [reflexivity|]. now rewrite orb_true_r.
  - intros Ho Hr. unfold handleKeydown. rewrite Ho, Hr. reflexivity.
Qed.

Lemma handleKeydown_ArrowDown (ui : ViewSelector) (w : World) :
  selector_open ui = true ->
  truthy_id (renamingId ui) = false ->
  handleKeydown env host "ArrowDown" ui w =
  (Resolved
     (set_selectedIndex
        (Z.min (selectedIndex ui + 1)
           (Z.of_nat (List.length (sortedViews host ui (savedViews w))) - 1)) ui,
      []), w).
Proof. intros Ho Hr. unfold handleKeydown. rewrite Ho, Hr. reflexivity. Qed.

Lemma handleKeydown_ArrowUp (ui : ViewSelector) (w : World) :
  selector_open ui = true ->
  truthy_id (renamingId ui) = false ->
  handleKeydown env host "ArrowUp" ui w =
  (Resolved (set_selectedIndex (Z.max (selectedIndex ui - 1) (-1)) ui, []), w).
Proof. intros Ho Hr. unfold handleKeydown. rewrite Ho, Hr. reflexivity. Qed.

(** The arrow keys keep the highlight within the list: from an open list
    whose highlight is no entry (-1) or one of the listed entries, any
    sequence of ArrowDown and ArrowUp leaves a highlight of that kind, changes
    nothing else of the selector, raises no signal and leaves the store as
    it is. *)
Theorem arrows_stay_in_list (keys : list string) (ui : ViewSelector)
  (w : World) :
  selector_open ui = true ->
  truthy_id (renamingId ui) = false ->
  -1 <= selectedIndex ui
     <= Z.of_nat (List.length (sortedViews host ui (savedViews w))) - 1 ->
  Forall arrow_key keys ->
  exists i,
    press_keys env host keys ui w = (Resolved (set_selectedIndex i ui, []), w) /\
    -1 <= i <= Z.of_nat (List.length (sortedViews host ui (savedViews w))) - 1.
Proof.
  intros Ho Hr Hi Hk. revert ui Ho Hr Hi.
  induction Hk as [|key keys Hkey _ IH]; intros ui Ho Hr Hi.
  - exists (selectedIndex ui). split; [|exact Hi]. destruct ui; reflexivity.
  - cbn [press_keys]. unfold bind at 1.
    destruct Hkey as [-> | ->].
    + rewrite (handleKeydown_ArrowDown _ _ Ho Hr). cbn [fst snd].
      set (ui1 := set_selectedIndex _ ui).
      destruct (IH ui1 Ho Hr) as (i & Hrun & Hbound).
      { subst ui1. cbn [selectedIndex set_selectedIndex]. 
        change (sortedViews host (set_selectedIndex _ ui) (savedViews w))
          with (sortedViews host ui (savedViews w)). lia. }
      exists i. unfold bind. rewrite Hrun. cbn. split; [reflexivity|].
      exact Hbound.
    + rewrite (handleKeydown_ArrowUp _ _ Ho Hr). cbn [fst snd].
      set (ui1 := set_selectedIndex _ ui).
      destruct (IH ui1 Ho Hr) as (i & Hrun & Hbound).
      { subst ui1. cbn [selectedIndex set_selectedIndex].
        change (sortedViews host (set_selectedIndex _ ui) (savedViews w))
          with (sortedViews host ui (savedViews w)). lia. }
      exists i. unfold bind. rewrite Hrun. cbn. split; [reflexivity|].
      exact Hbound.
Qed.

(** Pressing ArrowDown [n] times in a freshly opened list of [len] entries
    highlights entry [min n len - 1]: the [n]-th entry, or the last one. *)
Theorem arrow_downs_reach (n : nat) (ui : ViewSelector) (w : World) :
  selector_open ui = true ->
  truthy_id (renamingId ui) = false ->
  selectedIndex ui = -1 ->
  press_keys env host (repeat "ArrowDown" n) ui w =
  (Resolved
     (set_selectedIndex
        (Z.min (Z.of_nat n)
           (Z.of_nat (List.length (sortedViews host ui (savedViews w)))) - 1) ui,
      []), w).
Proof.
  intros Ho Hr Hi.
  assert (H : forall (m : nat) (u : ViewSelector),
            selector_open u = true ->
            truthy_id (renamingId u) = false ->
            selectedIndex u
              <= Z.of_nat (List.length (sortedViews host u (savedViews w))) - 1 ->
            press_keys env host (repeat "ArrowDown" m) u w =
            (Resolved
               (set_selectedIndex
                  (Z.min (selectedIndex u + Z.of_nat m)
                     (Z.of_nat (List.length (sortedViews host u (savedViews w)))
                      - 1)) u, []), w)).
  { induction m as [|m IH]; intros u Hou Hru Hiu.
    - cbn [repeat press_keys]. unfold ret. f_equal. f_equal.
      rewrite Z.add_0_r, Z.min_l by lia. destruct u; reflexivity.
    - cbn [repeat press_keys]. unfold bind at 1.
      rewrite (handleKeydown_ArrowDown _ _ Hou Hru). cbn [fst snd].
      unfold bind. rewrite IH; [| exact Hou | exact Hru |].
      + cbn [selectedIndex set_selectedIndex fst snd app ret].
        unfold ret. f_equal. f_equal.
        change (sortedViews host (set_selectedIndex _ u) (savedViews w))
          with (sortedViews host u (savedViews w)).
        unfold set_selectedIndex.
        cbn [selector_open searchQuery renamingId renameValue selectedIndex].
        f_equal. f_equal. lia.
      + cbn [selectedIndex set_selectedIndex].
        change (sortedViews host (set_selectedIndex _ u) (savedViews w))
          with (sortedViews host u (savedViews w)). lia. }
  rewrite (H n ui Ho Hr) by lia. rewrite Hi. do 4 f_equal. lia.
Qed.

(** ** The list of the selector *)

(** The list shows each view that matches the search exactly once, whatever
    order [localeCompare] gives; with nothing typed it shows every saved
    view exactly once. *)
Theorem sortedViews_lists_matches_once (ui : ViewSelector)
  (views : list SavedView) :
  Permutation (filteredViews host ui views) (sortedViews host ui views) /\
  (forall v, In v (sortedViews host ui views) -> In v views) /\
  (searchQuery ui = "" -> Permutation views (sortedViews host ui views)).
Proof.
  split; [apply Array_sort_perm|]. split; [apply sortedViews_incl|].
  intros Hq. unfold sortedViews, filteredViews. rewrite Hq. cbn.
  apply Array_sort_perm.
Qed.

(** When [localeCompare] is a consistent comparator (transitive on "not
    after", and never placing two names each after the other), the list is in
    its order: no view stands before one that compares before it. *)
Theorem sortedViews_sorted (ui : ViewSelector) (views : list SavedView) :
  (forall a b c,
     String_localeCompare host a b <= 0 ->
     String_localeCompare host b c <= 0 ->
     String_localeCompare host a c <= 0) ->
  (forall a b,
     0 < String_localeCompare host a b ->
     String_localeCompare host b a <= 0) ->
  StronglySorted
    (fun a b => String_localeCompare host (name a) (name b) <= 0)
    (sortedViews host ui views).
Proof.
  intros Htrans Hanti. unfold sortedViews. apply Array_sort_sorted.
  - intros a b c. apply Htrans.
  - intros a b H. exact H.
  - intros a b. apply Hanti.
Qed.

End Selector.

(** ** The theorems at work on sample sessions *)

Lemma ticking_clock_monotone (i j : nat) :
  (i <= j)%nat -> Date_now ticking_browser i <= Date_now ticking_browser j.
Proof. cbn [Date_now ticking_browser]. lia. Defined.

Lemma alpha_present : present "a" (savedViews world_ab).
Proof. exists view_alpha. split; [now left | reflexivity]. Defined.

Lemma update_effect_witness :
  browser ticking_browser = true /\
  present "a" (savedViews world_ab) /\
  rewritten (Date_now ticking_browser) "a" (merged new_layout) 0 1
    (savedViews world_ab)
    (savedViews (world_after (update ticking_browser "a" new_layout world_ab)))
  /\
  activeViewModified
    (world_after (update ticking_browser "a" new_layout world_ab)) = false.
Proof.
  split; [reflexivity|]. split; [exact alpha_present|].
  destruct (update_effect ticking_browser "a" new_layout world_ab
              eq_refl alpha_present) as (H1 & H2 & _).
  split; [exact H1 | exact H2].
Defined.

Lemma world_ab_in_order :
  Forall (fun v => createdAt v <= updatedAt v /\
                   createdAt v <= Date_now ticking_browser (clock_reads world_ab))
    (savedViews world_ab).
Proof.
  repeat constructor; intro Hgt; discriminate Hgt.
Defined.

Lemma world_ab_not_ahead :
  Forall (fun v => lastUsed v <= Date_now ticking_browser (clock_reads world_ab))
    (savedViews world_ab).
Proof.
  repeat constructor; intro Hgt; discriminate Hgt.
Defined.

Lemma session_sample_keeps_keys :
  Forall keeps_id session_sample /\
  Forall keeps_usageCount session_sample /\
  Forall keeps_lastUsed session_sample /\
  Forall keeps_createdAt session_sample.
Proof. repeat split; repeat constructor. Defined.

Lemma lifetime_invariants_witness :
  (Forall keeps_id session_sample /\
   Forall keeps_usageCount session_sample /\
   Forall keeps_lastUsed session_sample /\
   Forall keeps_createdAt session_sample) /\
  (forall i j, (i <= j)%nat ->
     Date_now ticking_browser i <= Date_now ticking_browser j) /\
  origins_of ticking_browser session_sample world_ab
    (initial_origins (savedViews world_ab)) = [Some 0%nat; None] /\
  continues (fun v v' => id v' = id v) (savedViews world_ab)
    [Some 0%nat; None]
    (savedViews (run ticking_browser session_sample world_ab)) /\
  continues (fun v v' => usageCount v <= usageCount v') (savedViews world_ab)
    [Some 0%nat; None]
    (savedViews (run ticking_browser session_sample world_ab)) /\
  continues (fun v v' => lastUsed v <= lastUsed v') (savedViews world_ab)
    [Some 0%nat; None]
    (savedViews (run ticking_browser session_sample world_ab)) /\
  Forall (fun v => createdAt v <= updatedAt v /\
                   createdAt v
                   <= Date_now ticking_browser
                        (clock_reads
                           (run ticking_browser session_sample world_ab)))
    (savedViews (run ticking_browser session_sample world_ab)).
Proof.
  destruct session_sample_keeps_keys as (K1 & K2 & K3 & K4).
  destruct (lifetime_invariants ticking_browser session_sample world_ab)
    as (H1 & H2 & H3 & H4).
  split; [exact session_sample_keeps_keys|].
  split; [exact ticking_clock_monotone|].
  split; [reflexivity|].
  split; [exact (H1 K1)|]. split; [exact (H2 K2)|].
  split; [exact (proj1 (H3 ticking_clock_monotone K3 world_ab_not_ahead))|].
  exact (H4 ticking_clock_monotone K4 world_ab_in_order).
Defined.

Lemma tally_never_repeats (i j : nat) :
  String.append "uuid-" (tally i) = String.append "uuid-" (tally j) -> i = j.
Proof.
  intros H. cbn in H. injection H as H. revert j H.
  induction i as [|i IH]; intros [|j] H; cbn in H;
    try reflexivity; try discriminate H.
  injection H as H. f_equal. now apply IH.
Defined.

Lemma world_ab_drawn_before (e : Env) :
  randomUUID e = randomUUID ticking_browser ->
  drawn_before e (uuid_draws world_ab) (savedViews world_ab).
Proof.
  intros He u k [<-|[<-|[]]] H; rewrite He in H; cbn in H; discriminate H.
Defined.

Lemma save_effect_witness :
  browser steady_browser = true /\
  drawn_before steady_browser (uuid_draws world_ab) (savedViews world_ab) /\
  never_repeats steady_browser /\
  exists v,
    result (save steady_browser input_gamma world_ab) = Resolved v /\
    savedViews (world_after (save steady_browser input_gamma world_ab)) =
      [view_alpha; view_beta; v] /\
    ~ present (id v) (savedViews world_ab) /\
    drawn_before steady_browser 1 [view_alpha; view_beta; v] /\
    createdAt v = updatedAt v /\ updatedAt v = lastUsed v /\
    usageCount v = 0.
Proof.
  split; [reflexivity|].
  split; [exact (world_ab_drawn_before steady_browser eq_refl)|].
  split; [exact tally_never_repeats|].
  destruct (save_effect steady_browser input_gamma world_ab eq_refl)
    as (v & Hr & Hs & Hn & Hid & Hfresh & _ & _ & _ & Heq & Hu & _).
  destruct (Hfresh (world_ab_drawn_before steady_browser eq_refl))
    as [Hnew Hnext].
  exists v. split; [exact Hr|]. split; [exact Hs|].
  split; [exact Hnew|]. split.
  - specialize (Hnext tally_never_repeats). rewrite Hs, Hn in Hnext.
    exact Hnext.
  - destruct (Heq eq_refl eq_refl) as [H1 H2]. auto.
Defined.

Lemma load_effect_witness :
  browser ticking_browser = true /\
  present "a" (savedViews world_ab) /\
  rewritten (Date_now ticking_browser) "a" used_once 0 1
    (savedViews world_ab)
    (savedViews (world_after (load ticking_browser "a" world_ab))) /\
  activeViewId (world_after (load ticking_browser "a" world_ab)) = Some "a" /\
  activeViewModified (world_after (load ticking_browser "a" world_ab)) = false.
Proof.
  split; [reflexivity|]. split; [exact alpha_present|].
  exact (proj1 (load_effect ticking_browser "a" world_ab eq_refl)
           alpha_present).
Defined.

Lemma delete_effect_witness :
  browser ticking_browser = true /\
  present "a" (savedViews world_ab) /\
  activeViewId world_ab = Some "a" /\
  savedViews (world_after (delete ticking_browser "a" world_ab)) = [view_beta]
  /\
  activeViewId (world_after (delete ticking_browser "a" world_ab)) = None /\
  activeViewModified (world_after (delete ticking_browser "a" world_ab))
    = false.
Proof.
  split; [reflexivity|]. split; [exact alpha_present|].
  split; [reflexivity|].
  destruct (proj1 (delete_effect ticking_browser "a" world_ab eq_refl)
              alpha_present eq_refl) as (H1 & _ & H2 & H3).
  split; [exact H1|]. split; [exact H2 | exact H3].
Defined.

Lemma load_returns_snapshot_witness :
  browser ticking_browser = true /\
  present "a" (savedViews world_ab) /\
  exists v,
    find_view "a" (savedViews world_ab) = Some v /\
    In v (savedViews world_ab) /\
    result (load ticking_browser "a" world_ab) = Resolved (Some v) /\
    exists v',
      find_view "a"
        (savedViews (world_after (load ticking_browser "a" world_ab)))
        = Some v' /\
      usageCount v' = Number_plus_one (usageCount v) /\
      (safe_to_increment (usageCount v) ->
       usageCount v' = usageCount v + 1) /\
      lastUsed v' = 1000.
Proof.
  split; [reflexivity|]. split; [exact alpha_present|].
  exact (load_returns_snapshot ticking_browser "a" world_ab eq_refl
           alpha_present).
Defined.

(** C1 as stated fails: a partial that carries [id] and [createdAt] replaces
    both in the stored view, and no view answers to the old id any more. *)
Lemma update_overwrites_id_and_createdAt :
  find_view "a" (savedViews world_ab) = Some view_alpha /\
  savedViews (world_after (update ticking_browser "a" retag world_ab)) =
    [ {| id := "z"; name := "Alpha"; description := None;
         config := plain_config; originalQuery := None;
         createdAt := 5000; updatedAt := 1000;
         usageCount := 2; lastUsed := 30 |};
      view_beta ] /\
  find_view "a"
    (savedViews (world_after (update ticking_browser "a" retag world_ab)))
    = None.
Proof. repeat split. Qed.

(** C2 as stated fails: on a modified active view [rename] keeps the flag
    that [update] with the name alone clears. *)
Lemma rename_keeps_modified_flag :
  activeViewModified world_ab = true /\
  activeViewModified
    (world_after (rename ticking_browser "a" "Gamma" world_ab)) = true /\
  activeViewModified
    (world_after (update ticking_browser "a" (name_only "Gamma") world_ab))
    = false /\
  world_after (rename ticking_browser "a" "Gamma" world_ab) <>
  world_after (update ticking_browser "a" (name_only "Gamma") world_ab).
Proof.
  repeat split. intros H.
  apply (f_equal activeViewModified) in H. discriminate H.
Qed.

(** C3 as stated fails: [update] can take uses and [lastUsed] back, change
    the id and put [createdAt] after [updatedAt]; when the wall clock is set
    back, a second [load] lowers [lastUsed] and [save] stamps [updatedAt]
    before [createdAt]; and a view stamped by a clock that ran ahead loses
    [lastUsed] at the next [load] and gets an [updatedAt] before its
    [createdAt] at the next [rename]; and a view stored with [createdAt]
    after [updatedAt] keeps them so through a [load]. *)
Lemma statistics_can_go_back :
  map usageCount (savedViews world_ab) = [2; 0] /\
  map lastUsed (savedViews world_ab) = [30; 15] /\
  map usageCount
    (savedViews (run ticking_browser [CUpdate "a" reset_stats] world_ab))
    = [0; 0] /\
  map lastUsed
    (savedViews (run ticking_browser [CUpdate "a" reset_stats] world_ab))
    = [0; 15] /\
  map id (savedViews (run ticking_browser [CUpdate "a" retag] world_ab))
    = ["z"; "b"] /\
  map createdAt (savedViews (run ticking_browser [CUpdate "a" retag] world_ab))
    = [5000; 15] /\
  map updatedAt (savedViews (run ticking_browser [CUpdate "a" retag] world_ab))
    = [1000; 15] /\
  map lastUsed (savedViews (run rewinding_browser [CLoad "a"] world_ab))
    = [1000; 15] /\
  map lastUsed
    (savedViews (run rewinding_browser [CLoad "a"; CLoad "a"] world_ab))
    = [999; 15] /\
  map createdAt
    (savedViews (run rewinding_browser [CSave input_gamma] world_empty))
    = [1000] /\
  map updatedAt
    (savedViews (run rewinding_browser [CSave input_gamma] world_empty))
    = [999] /\
  map lastUsed (savedViews world_ahead) = [5000] /\
  map lastUsed (savedViews (run ticking_browser [CLoad "f"] world_ahead))
    = [1000] /\
  map createdAt
    (savedViews (run ticking_browser [CRename "f" "Later"] world_ahead))
    = [5000] /\
  map updatedAt
    (savedViews (run ticking_browser [CRename "f" "Later"] world_ahead))
    = [1000] /\
  map createdAt
    (savedViews (run ticking_browser [CLoad "u"] world_unordered))
    = [30] /\
  map updatedAt
    (savedViews (run ticking_browser [CLoad "u"] world_unordered))
    = [20].
Proof. repeat split. Qed.

(** C6 as stated fails: at 2^53 uses the sum [usageCount + 1] is 2^53
    again, and [load] leaves the count where it was, in a stored view that
    has the count and in one that [update] has given it. *)
Lemma load_saturates_usageCount :
  present "w" (savedViews world_worn) /\
  map usageCount (savedViews world_worn) = [2 ^ 53] /\
  map usageCount
    (savedViews (world_after (load ticking_browser "w" world_worn)))
    = [2 ^ 53] /\
  map lastUsed
    (savedViews (world_after (load ticking_browser "w" world_worn)))
    = [1000] /\
  map usageCount
    (savedViews (run ticking_browser [CUpdate "a" wear_out] world_ab))
    = [2 ^ 53; 0] /\
  map usageCount
    (savedViews
       (run ticking_browser [CUpdate "a" wear_out; CLoad "a"; CLoad "a"]
          world_ab))
    = [2 ^ 53; 0].
Proof.
  split; [exists view_worn; split; [now left | reflexivity]|].
  repeat split.
Qed.

(** C4 as stated fails: the three timestamps are three reads of the clock,
    and a clock that ticks between them leaves them different; the id is
    whatever the generator returns, so that a generator that repeats itself
    gives two views one id, and so does an [update] that has given a stored
    view the id drawn next. *)
Lemma save_timestamps_and_ids_differ :
  result (save ticking_browser input_gamma world_ab) =
  Resolved
    {| id := "uuid-"; name := "Alpha"; description := None;
       config := plain_config; originalQuery := Some "open cases";
       createdAt := 1000; updatedAt := 1001;
       usageCount := 0; lastUsed := 1002 |} /\
  map id
    (savedViews
       (run repeating_browser [CSave input_gamma; CSave input_gamma]
          world_empty))
    = ["uuid-"; "uuid-"] /\
  map id
    (savedViews
       (run ticking_browser [CUpdate "a" claim_next_id; CSave input_gamma]
          world_ab))
    = ["uuid-"; "b"; "uuid-"].
Proof. repeat split. Qed.

(** The fifty-first view, under a name all fifty others already bear. *)
Example save_beyond_the_limit :
  List.length (savedViews world_full) = 50%nat /\
  result (nameExists ticking_browser "Alpha" None world_full) = Resolved true /\
  (exists v, result (save ticking_browser input_gamma world_full) = Resolved v)
  /\
  List.length
    (savedViews (world_after (save ticking_browser input_gamma world_full)))
    = 51%nat.
Proof. repeat split. eexists. reflexivity. Qed.

(** The most recent five of seven views used within the week, the oldest
    within the week included and the one older than a week left out. *)
Example recentViews_sample :
  map lastUsed
    (recentViews 700000000
       (map (fun t => {| id := "v"; name := "n"; description := None;
                         config := plain_config; originalQuery := None;
                         createdAt := 0; updatedAt := 0; usageCount := 0;
                         lastUsed := t |})
          [95200000; 700000000; 95199999; 300000000; 600000000;
           100000000; 650000000; 200000000]))
  = [700000000; 650000000; 600000000; 300000000; 200000000].
Proof. reflexivity. Qed.

(** The walk through the store of the package documentation: save a view,
    read the statistics, load it, update its page size, delete it. *)
Example store_walkthrough :
  let saved := run ticking_browser [CSave input_gamma] world_empty in
  let loaded := run ticking_browser [CLoad "uuid-"] saved in
  let updated := run ticking_browser [CUpdate "uuid-" wide_pages] loaded in
  let deleted := run ticking_browser [CDelete "uuid-"] updated in
  result (getStorageStats ticking_browser saved) =
    Resolved {| count := 1; limit := 50; percentFull := 2 |} /\
  map usageCount (savedViews loaded) = [1] /\
  activeViewId loaded = Some "uuid-" /\
  map updatedAt (savedViews loaded) = [1001] /\
  map updatedAt (savedViews updated) = [1004] /\
  map usageCount (savedViews updated) = [1] /\
  map (fun v => pageSize (config v)) (savedViews updated) = [50] /\
  savedViews deleted = [] /\
  activeViewId deleted = None.
Proof. cbv zeta. repeat split. Qed.

(** ** The further properties at work on sample sessions *)

Lemma save_then_nameExists_witness :
  browser ticking_browser = true /\
  result
    (nameExists ticking_browser "Alpha" None
       (world_after (save ticking_browser input_gamma world_full)))
  = Resolved true.
Proof.
  split; [reflexivity|].
  exact (save_then_nameExists ticking_browser input_gamma world_full eq_refl).
Defined.

Lemma rename_then_nameExists_witness :
  browser ticking_browser = true /\
  present "a" (savedViews world_ab) /\
  result
    (nameExists ticking_browser "Omega" None
       (world_after (rename ticking_browser "a" "Omega" world_ab)))
  = Resolved true /\
  result
    (nameExists ticking_browser "Omega" (Some "a")
       (world_after (rename ticking_browser "a" "Omega" world_ab)))
  = Resolved false.
Proof.
  split; [reflexivity|]. split; [exact alpha_present|].
  destruct (rename_then_nameExists ticking_browser "a" "Omega" world_ab
              eq_refl alpha_present) as [H1 H2].
  split; [exact H1|]. rewrite H2. reflexivity.
Defined.

Lemma only_markModified_raises_flag_witness :
  activeViewModified (perform ticking_browser CMarkModified world_empty) = true
  /\
  (CMarkModified = CMarkModified \/ activeViewModified world_empty = true).
Proof.
  split; [reflexivity|].
  exact (only_markModified_raises_flag ticking_browser CMarkModified
           world_empty eq_refl).
Defined.

Lemma world_ab_active_resolves : active_resolves world_ab.
Proof.
  intros a Ha. injection Ha as <-. exact alpha_present.
Defined.

Lemma session_keeps_active_view_witness :
  Forall keeps_id
    [CSave input_gamma; CUpdate "a" new_layout; CDelete "b"; CLoad "uuid-"] /\
  active_resolves world_ab /\
  activeViewId
    (run ticking_browser
       [CSave input_gamma; CUpdate "a" new_layout; CDelete "b"; CLoad "uuid-"]
       world_ab) = Some "uuid-" /\
  "uuid-" <> "" /\
  exists v,
    activeView
      (savedViews
         (run ticking_browser
            [CSave input_gamma; CUpdate "a" new_layout; CDelete "b";
             CLoad "uuid-"] world_ab))
      (activeViewId
         (run ticking_browser
            [CSave input_gamma; CUpdate "a" new_layout; CDelete "b";
             CLoad "uuid-"] world_ab)) = Some v /\
    In v
      (savedViews
         (run ticking_browser
            [CSave input_gamma; CUpdate "a" new_layout; CDelete "b";
             CLoad "uuid-"] world_ab)) /\
    id v = "uuid-".
Proof.
  assert (Hk : Forall keeps_id
                 [CSave input_gamma; CUpdate "a" new_layout; CDelete "b";
                  CLoad "uuid-"]) by (repeat constructor).
  assert (Hne : "uuid-" <> "") by discriminate.
  split; [exact Hk|]. split; [exact world_ab_active_resolves|].
  split; [reflexivity|]. split; [exact Hne|].
  exact (session_keeps_active_view ticking_browser _ world_ab "uuid-" Hk
           world_ab_active_resolves eq_refl Hne).
Defined.

Lemma load_then_activeView_witness :
  browser ticking_browser = true /\ "a" <> "" /\
  present "a" (savedViews world_ab) /\
  exists v v',
    find_view "a" (savedViews world_ab) = Some v /\
    activeView
      (savedViews (world_after (load ticking_browser "a" world_ab)))
      (activeViewId (world_after (load ticking_browser "a" world_ab)))
      = Some v' /\
    used_once 1000 v v'.
Proof.
  assert (Hne : "a" <> "") by discriminate.
  split; [reflexivity|]. split; [exact Hne|]. split; [exact alpha_present|].
  exact (load_then_activeView ticking_browser "a" world_ab eq_refl Hne
           alpha_present).
Defined.

Lemma recentViews_keeps_most_recent_witness :
  In view_beta [view_alpha; view_beta] /\
  40 - 7 * 24 * 60 * 60 * 1000 <= lastUsed view_beta /\
  In view_alpha (recentViews 40 [view_alpha; view_beta]) /\
  (In view_beta (recentViews 40 [view_alpha; view_beta]) \/
   lastUsed view_beta <= lastUsed view_alpha).
Proof.
  assert (H1 : In view_beta [view_alpha; view_beta]) by (right; now left).
  assert (H2 : 40 - 7 * 24 * 60 * 60 * 1000 <= lastUsed view_beta)
    by (cbn; discriminate).
  assert (H3 : In view_alpha (recentViews 40 [view_alpha; view_beta]))
    by (now left).
  split; [exact H1|]. split; [exact H2|]. split; [exact H3|].
  exact (recentViews_keeps_most_recent 40 [view_alpha; view_beta]
           view_beta view_alpha H1 H2 H3).
Defined.

Lemma recentViews_lists_all_when_few_witness :
  (List.length (used_this_week 40 [view_alpha; view_beta]) <= 5)%nat /\
  Permutation (used_this_week 40 [view_alpha; view_beta])
    (recentViews 40 [view_alpha; view_beta]).
Proof.
  assert (H : (List.length (used_this_week 40 [view_alpha; view_beta]) <= 5)%nat)
    by (cbn; lia).
  split; [exact H|].
  exact (recentViews_lists_all_when_few 40 [view_alpha; view_beta] H).
Defined.

Lemma duplicateView_fresh_name_witness :
  browser ticking_browser = true /\
  (List.length (savedViews world_ab) < 3)%nat /\
  exists v,
    result (duplicateView ticking_browser 3 view_alpha world_ab)
      = Resolved (Some []) /\
    savedViews (world_after (duplicateView ticking_browser 3 view_alpha world_ab))
      = savedViews world_ab ++ [v] /\
    (forall u, In u (savedViews world_ab) -> name u <> name v).
Proof.
  assert (H : (List.length (savedViews world_ab) < 3)%nat) by (cbn; lia).
  split; [reflexivity|]. split; [exact H|].
  destruct (duplicateView_fresh_name ticking_browser 3 view_alpha world_ab
              eq_refl H) as (v & H1 & H2 & H3 & _).
  exists v. split; [exact H1|]. split; [exact H2 | exact H3].
Defined.

Lemma selector_opened_in_range :
  -1 <= selectedIndex selector_opened
     <= Z.of_nat
          (List.length
             (sortedViews sample_host selector_opened (savedViews world_ab)))
        - 1.
Proof. vm_compute. split; discriminate. Defined.

Lemma arrows_stay_in_list_witness :
  selector_open selector_opened = true /\
  truthy_id (renamingId selector_opened) = false /\
  Forall arrow_key ["ArrowDown"; "ArrowDown"; "ArrowDown"; "ArrowUp"] /\
  exists i,
    press_keys ticking_browser sample_host
      ["ArrowDown"; "ArrowDown"; "ArrowDown"; "ArrowUp"]
      selector_opened world_ab
    = (Resolved (set_selectedIndex i selector_opened, []), world_ab) /\
    -1 <= i
       <= Z.of_nat
            (List.length
               (sortedViews sample_host selector_opened (savedViews world_ab)))
          - 1.
Proof.
  assert (Hk : Forall arrow_key
                 ["ArrowDown"; "ArrowDown"; "ArrowDown"; "ArrowUp"]).
  { repeat constructor; (now left) || (now right). }
  split; [reflexivity|]. split; [reflexivity|]. split; [exact Hk|].
  exact (arrows_stay_in_list ticking_browser sample_host _ selector_opened
           world_ab eq_refl eq_refl selector_opened_in_range Hk).
Defined.

Lemma arrow_downs_reach_witness :
  selector_open selector_opened = true /\
  truthy_id (renamingId selector_opened) = false /\
  selectedIndex selector_opened = -1 /\
  press_keys ticking_browser sample_host (repeat "ArrowDown" 5)
    selector_opened world_ab
  = (Resolved
       (set_selectedIndex
          (Z.min (Z.of_nat 5)
             (Z.of_nat
                (List.length
                   (sortedViews sample_host selector_opened
                      (savedViews world_ab)))) - 1)
          selector_opened, []), world_ab).
Proof.
  split; [reflexivity|]. split; [reflexivity|]. split; [reflexivity|].
  exact (arrow_downs_reach ticking_browser sample_host 5 selector_opened
           world_ab eq_refl eq_refl eq_refl).
Defined.

Lemma sortedViews_sorted_witness :
  (forall a b c,
     String_localeCompare sample_host a b <= 0 ->
     String_localeCompare sample_host b c <= 0 ->
     String_localeCompare sample_host a c <= 0) /\
  (forall a b,
     0 < String_localeCompare sample_host a b ->
     String_localeCompare sample_host b a <= 0) /\
  StronglySorted
    (fun a b => String_localeCompare sample_host (name a) (name b) <= 0)
    (sortedViews sample_host selector_opened (savedViews world_ab)).
Proof.
  assert (H1 : forall a b c,
             String_localeCompare sample_host a b <= 0 ->
             String_localeCompare sample_host b c <= 0 ->
             String_localeCompare sample_host a c <= 0).
  { intros a b c. cbn [String_localeCompare sample_host]. lia. }
  assert (H2 : forall a b,
             0 < String_localeCompare sample_host a b ->
             String_localeCompare sample_host b a <= 0).
  { intros a b. cbn [String_localeCompare sample_host]. lia. }
  split; [exact H1|]. split; [exact H2|].
  exact (sortedViews_sorted sample_host selector_opened (savedViews world_ab)
           H1 H2).
Defined.

Lemma gamma_not_taken (u : SavedView) :
  In u (savedViews world_ab) ->
  name u <> String_trim sample_host (modal_name modal_gamma).
Proof. intros [<-|[<-|[]]]; discriminate. Defined.

Lemma handleSave_saves_valid_input_witness :
  browser ticking_browser = true /\
  String_trim sample_host (modal_name modal_gamma) <> "" /\
  (String.length (modal_name modal_gamma) <= 100)%nat /\
  (List.length (savedViews world_ab) < 50)%nat /\
  exists v,
    result (handleSave ticking_browser sample_host modal_gamma world_ab) =
      Resolved (closed_after_save modal_gamma,
                [save_event (id v) (name v)]) /\
    savedViews
      (world_after (handleSave ticking_browser sample_host modal_gamma world_ab))
      = savedViews world_ab ++ [v] /\
    name v = "Gamma".
Proof.
  assert (H1 : String_trim sample_host (modal_name modal_gamma) <> "")
    by discriminate.
  assert (H2 : (String.length (modal_name modal_gamma) <= 100)%nat)
    by (cbn; lia).
  assert (H3 : (List.length (savedViews world_ab) < 50)%nat) by (cbn; lia).
  split; [reflexivity|]. split; [exact H1|]. split; [exact H2|].
  split; [exact H3|].
  destruct (handleSave_saves_valid_input ticking_browser sample_host
              modal_gamma world_ab eq_refl H1 H2 gamma_not_taken H3)
    as (v & Hr & Hs & Hn & _).
  exists v. split; [exact Hr|]. split; [exact Hs | exact Hn].
Defined.

Lemma table_status_columns_known :
  Forall (fun c => In c availableColumns) (demo_columns table_status) /\
  Forall (fun c => In c availableColumns) (demo_columnOrder table_status).
Proof. split; repeat constructor; cbn; tauto. Defined.

Lemma update_then_select_restores_witness :
  browser ticking_browser = true /\
  activeViewId world_ab = Some "a" /\
  present "a" (savedViews world_ab) /\
  result (handleUpdateView ticking_browser table_status world_ab)
    = Resolved [] /\
  exists v,
    find_view "a"
      (savedViews
         (world_after (handleUpdateView ticking_browser table_status world_ab)))
      = Some v /\
    config v = captureCurrentConfig table_status /\
    handleViewSelected v table_blank = table_status.
Proof.
  assert (Hne : "a" <> "") by discriminate.
  assert (Hc : demo_columns table_status <> []) by discriminate.
  assert (Ho : demo_columnOrder table_status <> []) by discriminate.
  split; [reflexivity|]. split; [reflexivity|]. split; [exact alpha_present|].
  exact (update_then_select_restores ticking_browser table_status table_blank
           "a" world_ab eq_refl eq_refl Hne alpha_present Hc
           (proj1 table_status_columns_known) Ho
           (proj2 table_status_columns_known)).
Defined.

Lemma toggleSort_cycles_witness :
  demo_sort table_status = None /\
  bind (toggleSort "date" table_status)
    (fun t1 => bind (toggleSort "date" t1) (fun t2 => toggleSort "date" t2))
    world_empty
  = (Resolved table_status, set_activeViewModified true world_empty).
Proof.
  split; [reflexivity|].
  exact (toggleSort_cycles "date" table_status world_empty
           (or_introl eq_refl)).
Defined.

Lemma ids_stay_distinct_witness :
  never_repeats ticking_browser /\
  Forall keeps_id session_sample /\
  drawn_before ticking_browser (uuid_draws world_ab) (savedViews world_ab) /\
  NoDup (map id (savedViews world_ab)) /\
  map id (savedViews (run ticking_browser session_sample world_ab))
    = ["a"; "uuid-"] /\
  NoDup (map id (savedViews (run ticking_browser session_sample world_ab))).
Proof.
  assert (Hn : NoDup (map id (savedViews world_ab))).
  { cbn. constructor; [intros [H|[]]; discriminate H|].
    constructor; [intros [] | constructor]. }
  split; [exact tally_never_repeats|].
  split; [exact (proj1 session_sample_keeps_keys)|].
  split; [exact (world_ab_drawn_before ticking_browser eq_refl)|].
  split; [exact Hn|]. split; [reflexivity|].
  exact (proj2 (ids_stay_distinct ticking_browser session_sample world_ab
                  tally_never_repeats (proj1 session_sample_keeps_keys)
                  (world_ab_drawn_before ticking_browser eq_refl) Hn)).
Defined.

Lemma selector_on_first_in_range :
  0 <= selectedIndex (set_selectedIndex 0 selector_opened)
    < Z.of_nat
        (List.length
           (sortedViews sample_host (set_selectedIndex 0 selector_opened)
              (savedViews world_ab))).
Proof. vm_compute. split; [discriminate | reflexivity]. Defined.

Lemma handleKeydown_loads_only_listed_witness :
  handleKeydown ticking_browser sample_host "Enter"
    (set_selectedIndex 0 selector_opened) world_ab
  = (Resolved (closeDropdown selector_opened, [viewSelected view_beta]),
     world_after (load ticking_browser "b" world_ab)) /\
  activeViewId (world_after (load ticking_browser "b" world_ab)) = Some "b".
Proof.
  destruct (handleKeydown_loads_only_listed ticking_browser sample_host
              "Enter" (set_selectedIndex 0 selector_opened) world_ab)
    as (_ & Hlive & _).
  destruct (Hlive eq_refl eq_refl eq_refl selector_on_first_in_range)
    as (v & Hnth & _ & Hrun & Hactive & _).
  injection Hnth as <-. split; [exact Hrun | exact Hactive].
Defined.

Lemma handleViewSelected_columns_valid_witness :
  demo_columns (handleViewSelected view_foreign table_status) = ["status"] /\
  demo_columnOrder (handleViewSelected view_foreign table_status)
    = availableColumns.
Proof.
  destruct (handleViewSelected_columns_valid view_foreign table_status)
    as (_ & _ & _ & _ & _ & _ & Hkept & _ & _ & Hnone).
  split.
  - apply Hkept. exists "status". split; [right; now left|].
    cbn. tauto.
  - apply Hnone. intros c [<-|[<-|[]]] Hin; cbn in Hin;
      repeat (destruct Hin as [Hin|Hin]; [discriminate Hin|]); exact Hin.
Defined.

Lemma formatDate_ranges_witness :
  formatDate sample_host 1700000000000 (1700000000000 - 3 * 86400000)
    = "3 days ago" /\
  formatDate sample_host 1700000000000 (1700000000000 - 15 * 86400000)
    = "2 weeks ago" /\
  formatDate sample_host 1700000000000 (1700000000000 + 1)
    = "-1 days ago" /\
  formatDate sample_host 1700000000000 8640000000000001 = "Invalid Date".
Proof.
  destruct (formatDate_ranges sample_host 1700000000000
              (1700000000000 - 3 * 86400000)) as (_ & Hdays).
  destruct (formatDate_ranges sample_host 1700000000000
              (1700000000000 - 15 * 86400000)) as (_ & Hweeks).
  destruct (formatDate_ranges sample_host 1700000000000
              (1700000000000 + 1)) as (_ & Hahead).
  destruct (formatDate_ranges sample_host 1700000000000 8640000000000001)
    as (Hfar & _).
  split; [|split; [|split]].
  - destruct (Hdays ltac:(vm_compute; discriminate)
                ltac:(vm_compute; discriminate))
      as (_ & _ & H & _).
    exact (proj2 (H ltac:(vm_compute; split; [discriminate | reflexivity]))).
  - destruct (Hweeks ltac:(vm_compute; discriminate)
                ltac:(vm_compute; discriminate))
      as (_ & _ & _ & H & _).
    exact (proj2 (H ltac:(vm_compute; split; [discriminate | reflexivity]))).
  - destruct (Hahead ltac:(vm_compute; discriminate)
                ltac:(vm_compute; discriminate))
      as (_ & _ & _ & _ & _ & H).
    exact (proj1 (proj2 (H ltac:(vm_compute; reflexivity)))).
  - exact (Hfar ltac:(vm_compute; reflexivity)).
Defined.
